(** * A features / outcomes framework for stock prediction, verified

    Shallow embedding of the notebook [01_Framework.ipynb]: the price table
    returned by [get_symbols], the [features] and [outcomes] tables derived
    from it, the join that aligns them into a training pair, and the
    prediction series.

    Tables are kept as the notebook keeps them: rows in index order, keyed by
    the composite index (date, symbol).  Numeric cells are IEEE 754 binary64
    values ([SpecFloat] with precision 53 and maximal exponent 1024), a
    missing value being the NaN.  *)

From Stdlib Require Import ZArith String Bool Lia Sorted Permutation List.
From Stdlib Require Import OrderedTypeEx RelationClasses.
From Stdlib Require Import SpecFloat.
Import ListNotations.

(** ** Binary64 cells *)

Module F64.

Definition prec : Z := 53.
Definition emax : Z := 1024.

Definition float := spec_float.

Definition nan : float := S754_nan.
Definition one : float := Eval cbv in SFone prec emax.

Definition div : float -> float -> float := SFdiv prec emax.
Definition sub : float -> float -> float := SFsub prec emax.

(** [numpy.isnan] / [pandas.isna] on a float cell. *)
Definition isnan (x : float) : bool :=
  match x with S754_nan => true | _ => false end.

(** A finite, non-zero cell. *)
Definition proper (x : float) : bool :=
  match x with S754_finite _ _ _ => true | _ => false end.

(** Integer literals, for the examples. *)
Definition of_Z (z : Z) : float := binary_normalize prec emax z 0 false.

End F64.

Abbreviation float := F64.float.
Abbreviation nan := F64.nan.

(** ** The composite index *)

Definition symbol := string.

(** A date is a day number, counted from 1970-01-01 (the integer a
    [datetime64] index stores, at the resolution of a day). *)
Definition date := Z.

Definition index_key : Type := date * symbol.

Definition key_eqb (a b : index_key) : bool :=
  Z.eqb (fst a) (fst b) && String.eqb (snd a) (snd b).

(** Order of [sort_index] on the two index levels: by date, then by symbol. *)
Definition key_leb (a b : index_key) : bool :=
  Z.ltb (fst a) (fst b) || (Z.eqb (fst a) (fst b) && String.leb (snd a) (snd b)).

(** [DatetimeIndex.weekday]: Monday is 0; 1970-01-01 was a Thursday. *)
Definition weekday (d : date) : Z := ((d + 3) mod 7)%Z.

(** [DatetimeIndex.day]: day of the month in the proleptic Gregorian
    calendar, by the usual era / day-of-era decomposition. *)
Definition day (d : date) : Z :=
  (let z := d + 719468 in
   let era := z / 146097 in
   let doe := z - era * 146097 in
   let yoe := (doe - doe / 1460 + doe / 36524 - doe / 146096) / 365 in
   let doy := doe - (365 * yoe + yoe / 4 - yoe / 100) in
   let mp := (5 * doy + 2) / 153 in
   doy - (153 * mp + 2) / 5 + 1)%Z.

(** ** Series and frames *)

(** A float Series: index labels with their values, in index order. *)
Definition Series := list (index_key * float).

Inductive cell :=
| CFloat (x : float)
| CInt (z : Z).

Definition isna (c : cell) : bool :=
  match c with CFloat x => F64.isnan x | CInt _ => false end.

(** [numpy.isinf] on a cell. *)
Definition isinf (c : cell) : bool :=
  match c with CFloat (S754_infinity _) => true | _ => false end.

(** A value that the estimators accept: neither missing nor infinite. *)
Definition finite_cell (c : cell) : bool := negb (isna c) && negb (isinf c).

(** A DataFrame with a (date, symbol) index: column labels, and the rows in
    index order, each with one cell per column. *)
Record DataFrame := mkFrame {
  columns : list string;
  rows : list (index_key * list cell)
}.

(** The price table: the frame [get_symbols] returns has exactly these five
    float columns. *)
Record price_row := mkPrice {
  p_date : date;
  p_symbol : symbol;
  open : float;
  high : float;
  low : float;
  close : float;
  volume : float
}.

Definition p_key (r : price_row) : index_key := (p_date r, p_symbol r).

(** [prices.c]: one column of the price table, as a Series. *)
Definition column (c : price_row -> float) (prices : list price_row) : Series :=
  map (fun r => (p_key r, c r)) prices.

Definition tabulate {A} (n : nat) (f : nat -> A) : list A := map f (seq 0 n).

Fixpoint zip_with {A B C} (f : A -> B -> C) (a : list A) (b : list B) : list C :=
  match a, b with
  | x :: a', y :: b' => f x y :: zip_with f a' b'
  | _, _ => []
  end.

(** ** Operations on the values of one group *)

(** [shift(periods)]: the value [periods] rows earlier (later when
    [periods] is negative); NaN where that row does not exist. *)
Definition shift (periods : Z) (l : list float) : list float :=
  tabulate (length l) (fun i =>
    let j := (Z.of_nat i - periods)%Z in
    if (0 <=? j)%Z && (j <? Z.of_nat (length l))%Z
    then nth (Z.to_nat j) l nan else nan).

(** [diff(periods)]: the value minus the shifted value. *)
Definition diff (periods : Z) (l : list float) : list float :=
  zip_with F64.sub l (shift periods l).

(** [ffill] / [fillna(method='pad')]: a NaN takes the last value seen. *)
Fixpoint ffill_from (last : float) (l : list float) : list float :=
  match l with
  | [] => []
  | x :: l' =>
      let v := if F64.isnan x then last else x in
      v :: ffill_from v l'
  end.

Definition ffill (l : list float) : list float := ffill_from nan l.

(** What [pct_change] does with its default [fill_method] has changed over
    the releases of pandas; the three behaviours are kept apart here, and
    they agree on a column without NaN.
    - [PadMasked]: pad, then put NaN back where the input was NaN;
    - [Pad]: pad (the default [fill_method='pad']);
    - [NoFill]: no filling ([fill_method=None]). *)
Inductive fill_method := PadMasked | Pad | NoFill.

Definition pct_change (fm : fill_method) (periods : Z) (l : list float) : list float :=
  let data := match fm with NoFill => l | _ => ffill l end in
  let rs := zip_with (fun a b => F64.sub (F64.div a b) F64.one) data (shift periods data) in
  match fm with
  | PadMasked => zip_with (fun r x => if F64.isnan x then nan else r) rs l
  | _ => rs
  end.

(** ** groupby(level='symbol') *)

Definition has_symbol {A} (s : symbol) (r : index_key * A) : bool :=
  String.eqb (snd (fst r)) s.

(** The values of the group of symbol [s], in index order. *)
Definition group (s : symbol) (S : Series) : list float :=
  map snd (filter (has_symbol s) S).

Definition count_symbol (s : symbol) (seen : list symbol) : nat :=
  length (filter (String.eqb s) seen).

(** Put the transformed groups [res] back at the rows they came from:
    the row of symbol [s] met after [n] earlier rows of [s] takes the [n]-th
    value of [res s]. *)
Fixpoint scatter (res : symbol -> list float) (seen : list symbol) (S : Series) : Series :=
  match S with
  | [] => []
  | (k, _) :: S' =>
      (k, nth (count_symbol (snd k) seen) (res (snd k)) nan)
        :: scatter res (snd k :: seen) S'
  end.

(** [S.groupby(level='symbol').f()] for a transformation [f] of a group's
    values: the result carries the index of [S]. *)
Definition groupby (f : list float -> list float) (S : Series) : Series :=
  scatter (fun s => f (group s S)) [] S.

(** Arithmetic of two Series that carry the same index (every Series below
    carries the index of [prices]): position by position. *)
Definition series_op (f : float -> float -> float) (a b : Series) : Series :=
  zip_with (fun x y => (fst x, f (snd x) (snd y))) a b.

Definition series_sub := series_op F64.sub.
Definition series_div := series_op F64.div.
Definition series_sub_scalar (a : Series) (c : float) : Series :=
  map (fun x => (fst x, F64.sub (snd x) c)) a.

(** ** Frame operations *)

(** A column of a frame: index labels with cells. *)
Definition Column := list (index_key * cell).

Definition float_column (S : Series) : Column :=
  map (fun e => (fst e, CFloat (snd e))) S.

(** [pd.DataFrame(index=idx)]: a frame with that index and no column. *)
Definition new_frame (idx : list index_key) : DataFrame :=
  mkFrame [] (map (fun k => (k, [])) idx).

Definition index (df : DataFrame) : list index_key := map fst (rows df).

Definition add_column (col : Column) (rs : list (index_key * list cell))
  : list (index_key * list cell) :=
  zip_with (fun r c => (fst r, snd r ++ [snd c])) rs col.

(** [df[name] = col] for a new label [name] and a column that carries the
    index of [df]: the column is appended, position by position. *)
Definition assign (df : DataFrame) (name : string) (col : Column) : DataFrame :=
  mkFrame (columns df ++ [name]) (add_column col (rows df)).

Definition complete (r : index_key * list cell) : bool :=
  forallb (fun c => negb (isna c)) (snd r).

(** [df.dropna()]: the rows without any missing cell. *)
Definition dropna (df : DataFrame) : DataFrame :=
  mkFrame (columns df) (filter complete (rows df)).

Inductive error := KeyError | ValueError | NameError | TypeError | AttributeError.

Inductive result (A : Type) :=
| Ok (a : A)
| Raise (e : error).
Arguments Ok {A} a.
Arguments Raise {A} e.

Definition bind {A B} (m : result A) (k : A -> result B) : result B :=
  match m with Ok a => k a | Raise e => Raise e end.

Notation "x <- m ;; k" := (bind m (fun x => k))
  (at level 61, m at next level, right associativity).

Fixpoint position (name : string) (cols : list string) : option nat :=
  match cols with
  | [] => None
  | c :: cols' =>
      if String.eqb c name then Some 0
      else option_map S (position name cols')
  end.

(** [df[name]]: one column; [KeyError] without it. *)
Definition getitem (df : DataFrame) (name : string) : result Column :=
  match position name (columns df) with
  | Some p => Ok (map (fun r => (fst r, nth p (snd r) (CFloat nan))) (rows df))
  | None => Raise KeyError
  end.

(** [df.name], the attribute access to a column: [AttributeError] without
    it. *)
Definition getattr (df : DataFrame) (name : string) : result Column :=
  match position name (columns df) with
  | Some p => Ok (map (fun r => (fst r, nth p (snd r) (CFloat nan))) (rows df))
  | None => Raise AttributeError
  end.

(** The positions of all the columns labelled [name], in increasing
    order. *)
Fixpoint all_positions (name : string) (cols : list string) : list nat :=
  match cols with
  | [] => []
  | c :: cols' =>
      (if String.eqb c name then [0] else []) ++ map S (all_positions name cols')
  end.

(** For each requested label in turn, every column under that label;
    [KeyError] when a label has no column. *)
Fixpoint positions (names cols : list string) : result (list (string * nat)) :=
  match names with
  | [] => Ok []
  | n :: names' =>
      match all_positions n cols with
      | [] => Raise KeyError
      | ps => rest <- positions names' cols ;; Ok (map (pair n) ps ++ rest)
      end
  end.

(** [df[names]]: the frame of the columns [names], in that order; a label
    that several columns carry gives all of them, each time it is
    requested. *)
Definition getitem_columns (df : DataFrame) (names : list string) : result DataFrame :=
  ps <- positions names (columns df) ;;
  Ok (mkFrame (map fst ps)
        (map (fun r => (fst r, map (fun p => nth (snd p) (snd r) (CFloat nan)) ps))
             (rows df))).

Definition matches (k : index_key) (y : Column) : Column :=
  filter (fun e => key_eqb (fst e) k) y.

(** Rows of a left join on the index: a row of the calling frame is kept
    once for each entry of [y] under its label, and once with a missing
    value when [y] has none. *)
Definition left_join_rows (X : list (index_key * list cell)) (y : Column)
  : list (index_key * list cell) :=
  flat_map (fun r =>
    match matches (fst r) y with
    | [] => [(fst r, snd r ++ [CFloat nan])]
    | ms => map (fun e => (fst r, snd r ++ [snd e])) ms
    end) X.

(** Rows of an inner join on the index, in the order of the calling frame. *)
Definition inner_join_rows (X : list (index_key * list cell)) (y : Column)
  : list (index_key * list cell) :=
  flat_map (fun r => map (fun e => (fst r, snd r ++ [snd e])) (matches (fst r) y)) X.

Inductive how := Left | Inner.

(** [X.join(y, how=...)] for a Series [y] named [yname]; the default is
    [how='left'].  Overlapping column labels raise [ValueError]. *)
Definition join (h : how) (X : DataFrame) (yname : string) (y : Column)
  : result DataFrame :=
  if existsb (String.eqb yname) (columns X) then Raise ValueError
  else Ok (mkFrame (columns X ++ [yname])
             (match h with
              | Left => left_join_rows (rows X) y
              | Inner => inner_join_rows (rows X) y
              end)).

(** ** The tables of the notebook *)

Section Tables.

(** The behaviour of [pct_change] in the installed pandas. *)
Variable fm : fill_method.

Local Open Scope string_scope.

Definition by_symbol (f : list float -> list float)
           (c : price_row -> float) (prices : list price_row) : Series :=
  groupby f (column c prices).

Definition volume_change_ratio (prices : list price_row) : Series :=
  series_div (by_symbol (diff 1) volume prices) (by_symbol (shift 1) volume prices).

Definition momentum_5_day (prices : list price_row) : Series :=
  by_symbol (pct_change fm 5) close prices.

Definition intraday_chg (prices : list price_row) : Series :=
  series_div
    (series_sub (by_symbol (shift 0) close prices) (by_symbol (shift 0) open prices))
    (by_symbol (shift 0) open prices).

(** [index.get_level_values('date').weekday] and [.day], kept with the
    labels they are computed from. *)
Definition day_of_week (idx : list index_key) : Column :=
  map (fun k => (k, CInt (weekday (fst k)))) idx.

Definition day_of_month (idx : list index_key) : Column :=
  map (fun k => (k, CInt (day (fst k)))) idx.

(** The features frame before [dropna]. *)
Definition features_raw (prices : list price_row) : DataFrame :=
  let features := new_frame (map p_key prices) in
  let features := assign features "volume_change_ratio"
                    (float_column (volume_change_ratio prices)) in
  let features := assign features "momentum_5_day"
                    (float_column (momentum_5_day prices)) in
  let features := assign features "intraday_chg"
                    (float_column (intraday_chg prices)) in
  let features := assign features "day_of_week" (day_of_week (index features)) in
  let features := assign features "day_of_month" (day_of_month (index features)) in
  features.

(** [features], after [features.dropna(inplace=True)]. *)
Definition features (prices : list price_row) : DataFrame :=
  dropna (features_raw prices).

Definition open_1 (prices : list price_row) : Series :=
  series_sub_scalar
    (series_div (by_symbol (shift (-1)) open prices) (by_symbol (shift 0) close prices))
    F64.one.

Definition close_1 (prices : list price_row) : Series :=
  by_symbol (pct_change fm (-1)) close prices.

Definition close_5 (prices : list price_row) : Series :=
  by_symbol (pct_change fm (-5)) close prices.

(** [outcomes]: no [dropna] here. *)
Definition outcomes (prices : list price_row) : DataFrame :=
  let outcomes := new_frame (map p_key prices) in
  let outcomes := assign outcomes "open_1" (float_column (open_1 prices)) in
  let outcomes := assign outcomes "close_1" (float_column (close_1 prices)) in
  let outcomes := assign outcomes "close_5" (float_column (close_5 prices)) in
  outcomes.

End Tables.

Section Training.

Local Open Scope string_scope.

(** The training pair, as the notebook builds it:
    [y = outcomes.<name>; X = features; Xy = X.join(y).dropna();
     y = Xy[y.name]; X = Xy[X.columns]]. *)
Definition training_pair (features outcomes : DataFrame) (name : string)
  : result (DataFrame * Column) :=
  y <- getattr outcomes name ;;
  let X := features in
  Xy <- join Left X name y ;;
  let Xy := dropna Xy in
  y' <- getitem Xy name ;;
  X' <- getitem_columns Xy (columns X) ;;
  Ok (X', y').

(** The training pair as the specification describes it: inner join of
    the features and the outcome column on the index, then the rows with
    a missing value dropped, then split into matrix and target. *)
Definition spec_training_pair (features outcomes : DataFrame) (name : string)
  : result (DataFrame * Column) :=
  y <- getattr outcomes name ;;
  joined <- join Inner features name y ;;
  let kept := dropna joined in
  target <- getitem kept name ;;
  matrix <- getitem_columns kept (columns features) ;;
  Ok (matrix, target).

(** The training matrix [X] for the outcome column [name]. *)
Definition training_matrix (fm : fill_method) (name : string)
           (prices : list price_row) : result DataFrame :=
  Xy <- training_pair (features fm prices) (outcomes fm prices) name ;;
  Ok (fst Xy).

End Training.

(** [model.fit(X, y)] of the [LinearRegression] of scikit-learn.  The estimator first
    validates its input, and raises [ValueError] when a value of [X] or [y]
    is missing or infinite, when [X] has no row or no column, or when [X]
    and [y] differ in length.  The estimation that follows is numerical code
    outside this repository: [fit] is that validation, and [Ok] means that
    the data was accepted. *)
Definition fit (X : DataFrame) (y : Column) : result unit :=
  if forallb (fun r => forallb finite_cell (snd r)) (rows X)
     && negb (Nat.eqb (length (rows X)) 0)
     && negb (Nat.eqb (length (columns X)) 0)
     && forallb (fun e => finite_cell (snd e)) y
     && Nat.eqb (length y) (length (rows X))
  then Ok tt
  else Raise ValueError.

(** ** Retrieval of the prices *)

(** A row of the frame the data reader returns for one symbol: indexed by
    [Date], with the raw and the adjusted columns. *)
Record reader_row := mkReaderRow {
  Date : date;
  Open : float; High : float; Low : float; Close : float; Volume : float;
  AdjOpen : float; AdjHigh : float; AdjLow : float; AdjClose : float;
  AdjVolume : float
}.

Definition insert_row (r : price_row) : list price_row -> list price_row :=
  fix ins (l : list price_row) : list price_row :=
    match l with
    | [] => [r]
    | x :: l' => if key_leb (p_key r) (p_key x) then r :: l else x :: ins l'
    end.

(** [sort_index()]: rows in increasing order of (date, symbol); rows under
    one label keep their order. *)
Definition sort_index (l : list price_row) : list price_row :=
  fold_right insert_row [] l.

Section Retrieval.

(** [web.DataReader(symbol, data_source, begin_date, end_date)]: the
    market-data service, outside this repository. *)
Variable DataReader : symbol -> string -> option date -> option date -> list reader_row.

(** The body of the loop of [get_symbols]: the adjusted columns, renamed,
    with the symbol added and (date, symbol) as index. *)
Definition fetch (data_source : string) (begin_date end_date : option date)
           (symbol : symbol) : list price_row :=
  map (fun q => mkPrice (Date q) symbol
                  (AdjOpen q) (AdjHigh q) (AdjLow q) (AdjClose q) (AdjVolume q))
      (DataReader symbol data_source begin_date end_date).

(** The table is given by its rows, which carry the labels of the
    (date, symbol) index.  For an empty list of symbols the code returns
    [pd.DataFrame()], which has no row either, and no index level. *)
Definition get_symbols (symbols : list symbol) (data_source : string)
           (begin_date end_date : option date) : list price_row :=
  let out := fold_left
               (fun out symbol => out ++ fetch data_source begin_date end_date symbol)
               symbols [] in
  sort_index out.

End Retrieval.

(** The table the specification describes: for each symbol of the list in
    turn, the rows of the data reader for that symbol, each as a price row
    with the date, the symbol, and the adjusted open, high, low, close and
    volume. *)
Definition spec_adjusted_row (s : symbol) (q : reader_row) : price_row :=
  mkPrice (Date q) s (AdjOpen q) (AdjHigh q) (AdjLow q) (AdjClose q) (AdjVolume q).

Definition spec_concatenation
           (DataReader : symbol -> string -> option date -> option date -> list reader_row)
           (symbols : list symbol) (data_source : string)
           (begin_date end_date : option date) : list price_row :=
  flat_map (fun s => map (spec_adjusted_row s)
                         (DataReader s data_source begin_date end_date))
           symbols.

(** ** The notebook, statement by statement

    The kernel keeps objects in a heap and binds names to them; an
    assignment [a = b] makes [a] a second name of the object of [b], and an
    in-place operation changes the object under all its names. *)

Inductive object :=
| PricesObj (t : list price_row)
| FrameObj (df : DataFrame)
| SeriesObj (name : string) (c : Column).

Record kernel := mkKernel {
  heap : list object;
  globals : list (string * nat)
}.

Definition cmd (A : Type) := kernel -> result (A * kernel).

Definition ret {A} (a : A) : cmd A := fun k => Ok (a, k).

Definition seq_cmd {A B} (m : cmd A) (f : A -> cmd B) : cmd B :=
  fun k => match m k with Ok (a, k') => f a k' | Raise e => Raise e end.

Notation "x <~ m ;; f" := (seq_cmd m (fun x => f))
  (at level 61, m at next level, right associativity).
Notation "m ;;; f" := (seq_cmd m (fun _ => f))
  (at level 61, right associativity).

Definition lift {A} (r : result A) : cmd A :=
  fun k => match r with Ok a => Ok (a, k) | Raise e => Raise e end.

Fixpoint lookup (name : string) (g : list (string * nat)) : option nat :=
  match g with
  | [] => None
  | (n, l) :: g' => if String.eqb n name then Some l else lookup name g'
  end.

(** Reading a name: [NameError] when it is not bound. *)
Definition load (name : string) : cmd object :=
  fun k => match lookup name (globals k) with
           | Some l => match nth_error (heap k) l with
                       | Some o => Ok (o, k)
                       | None => Raise NameError
                       end
           | None => Raise NameError
           end.

(** [name = <new object>]. *)
Definition bind_new (name : string) (o : object) : cmd unit :=
  fun k => Ok (tt, mkKernel (heap k ++ [o]) ((name, length (heap k)) :: globals k)).

(** [name = other]: a second name for the same object. *)
Definition bind_alias (name other : string) : cmd unit :=
  fun k => match lookup other (globals k) with
           | Some l => Ok (tt, mkKernel (heap k) ((name, l) :: globals k))
           | None => Raise NameError
           end.

Fixpoint set_nth {A} (n : nat) (a : A) (l : list A) : list A :=
  match l, n with
  | [], _ => []
  | _ :: l', 0 => a :: l'
  | x :: l', S n' => x :: set_nth n' a l'
  end.

(** An in-place change of the object bound to [name]. *)
Definition mutate (name : string) (o : object) : cmd unit :=
  fun k => match lookup name (globals k) with
           | Some l => Ok (tt, mkKernel (set_nth l o (heap k)) (globals k))
           | None => Raise NameError
           end.

Definition load_prices (name : string) : cmd (list price_row) :=
  o <~ load name ;;
  match o with PricesObj t => ret t | _ => lift (Raise TypeError) end.

Definition load_frame (name : string) : cmd DataFrame :=
  o <~ load name ;;
  match o with FrameObj df => ret df | _ => lift (Raise TypeError) end.

Definition load_series (name : string) : cmd (string * Column) :=
  o <~ load name ;;
  match o with SeriesObj n c => ret (n, c) | _ => lift (Raise TypeError) end.

Section Notebook.

Variable fm : fill_method.

Local Open Scope string_scope.

(** [target[label] = e], where [e] reads [prices] and [target]. *)
Definition setitem (target label : string)
           (e : list price_row -> DataFrame -> Column) : cmd unit :=
  prices <~ load_prices "prices" ;;
  df <~ load_frame target ;;
  mutate target (FrameObj (assign df label (e prices df))).

(** The cell that builds [features]. *)
Definition features_cell : cmd unit :=
  (prices <~ load_prices "prices" ;;
   bind_new "features" (FrameObj (new_frame (map p_key prices)))) ;;;
  setitem "features" "volume_change_ratio"
    (fun prices _ => float_column (volume_change_ratio prices)) ;;;
  setitem "features" "momentum_5_day"
    (fun prices _ => float_column (momentum_5_day fm prices)) ;;;
  setitem "features" "intraday_chg"
    (fun prices _ => float_column (intraday_chg prices)) ;;;
  setitem "features" "day_of_week" (fun _ features => day_of_week (index features)) ;;;
  setitem "features" "day_of_month" (fun _ features => day_of_month (index features)) ;;;
  (df <~ load_frame "features" ;; mutate "features" (FrameObj (dropna df))).

(** The cell that builds [outcomes]. *)
Definition outcomes_cell : cmd unit :=
  (prices <~ load_prices "prices" ;;
   bind_new "outcomes" (FrameObj (new_frame (map p_key prices)))) ;;;
  setitem "outcomes" "open_1" (fun prices _ => float_column (open_1 prices)) ;;;
  setitem "outcomes" "close_1" (fun prices _ => float_column (close_1 fm prices)) ;;;
  setitem "outcomes" "close_5" (fun prices _ => float_column (close_5 fm prices)).

(** The cell that aligns [X] and [y] for the outcome column [name]. *)
Definition align_cell (name : string) : cmd unit :=
  (outcomes <~ load_frame "outcomes" ;;
   y <~ lift (getattr outcomes name) ;;
   bind_new "y" (SeriesObj name y)) ;;;
  bind_alias "X" "features" ;;;
  (X <~ load_frame "X" ;;
   y <~ load_series "y" ;;
   Xy <~ lift (join Left X (fst y) (snd y)) ;;
   bind_new "Xy" (FrameObj (dropna Xy))) ;;;
  (Xy <~ load_frame "Xy" ;;
   y <~ load_series "y" ;;
   c <~ lift (getitem Xy (fst y)) ;;
   bind_new "y" (SeriesObj (fst y) c)) ;;;
  (Xy <~ load_frame "Xy" ;;
   X <~ load_frame "X" ;;
   X' <~ lift (getitem_columns Xy (columns X)) ;;
   bind_new "X" (FrameObj X')).

End Notebook.

(** The cell that fits the model, as far as [fit] goes: [model.fit(X, y)]. *)
Definition fit_cell : cmd unit :=
  X <~ load_frame "X" ;;
  y <~ load_series "y" ;;
  lift (fit X (snd y)).

(** ** Prediction *)

(** [pd.Series(data, index=idx)] for an array [data]: [ValueError] when the
    lengths differ. *)
Definition series_of_array (data : list float) (idx : list index_key) : result Series :=
  if Nat.eqb (length data) (length idx) then Ok (combine idx data)
  else Raise ValueError.

Section Prediction.

(** [model.predict] of a fitted regression model, on the matrix of the
    values of [X]: outside this repository. *)
Variable predict : list (list cell) -> list float.

(** [pd.Series(model.predict(X), index=X.index)]. *)
Definition prediction (X : DataFrame) : result Series :=
  series_of_array (predict (map snd (rows X))) (index X).

End Prediction.

(** ** Restrictions of a table, used to state the properties *)

(** The entries of a keyed list whose label satisfies [p]. *)
Definition restrict {A} (p : index_key -> bool) (l : list (index_key * A))
  : list (index_key * A) :=
  filter (fun r => p (fst r)) l.
Arguments restrict : simpl never.

Definition restrict_prices (p : index_key -> bool) (prices : list price_row)
  : list price_row :=
  filter (fun r => p (p_key r)) prices.

Definition of_symbol (s : symbol) (k : index_key) : bool := String.eqb (snd k) s.

(** Labels of symbol [s] dated at or before [d], at or after [d], and
    strictly after [d]. *)
Definition until (d : date) (s : symbol) (k : index_key) : bool :=
  String.eqb (snd k) s && (fst k <=? d)%Z.

Definition from (d : date) (s : symbol) (k : index_key) : bool :=
  String.eqb (snd k) s && (d <=? fst k)%Z.

Definition after (d : date) (s : symbol) (k : index_key) : bool :=
  String.eqb (snd k) s && (d <? fst k)%Z.

(** A transformation of values applied to a keyed series as a whole. *)
Definition transform (f : list float -> list float) (T : Series) : Series :=
  combine (map fst T) (f (map snd T)).

Definition key_le (a b : index_key) : Prop := key_leb a b = true.

(** The index of the table is in increasing order, as [sort_index] leaves
    it. *)
Definition sorted_index (prices : list price_row) : Prop :=
  StronglySorted key_le (map p_key prices).

(** The first value of [l], when [l] has one, is not missing. *)
Definition head_present (l : list float) : bool :=
  match l with [] => true | x :: _ => negb (F64.isnan x) end.

Definition down_closed (p : index_key -> bool) : Prop :=
  forall a b, key_le a b -> p b = true -> p a = true.

Definition up_closed (p : index_key -> bool) : Prop :=
  forall a b, key_le a b -> p a = true -> p b = true.

(** [groupby f] on column [c] commutes with the restriction to [p]. *)
Definition commutes (p : index_key -> bool) (P : list price_row)
           (f : list float -> list float) (c : price_row -> float) : Prop :=
  restrict p (by_symbol f c P) = by_symbol f c (restrict_prices p P).

(** What the outcomes can read of a price row: its label, its open and its
    close. *)
Definition open_close (r : price_row) : index_key * float * float :=
  (p_key r, open r, close r).

(** The label [k0] itself. *)
Definition at_key (k0 : index_key) (k : index_key) : bool := key_eqb k k0.

(** A decision procedure for [sorted_index]. *)
Fixpoint sorted_keysb (idx : list index_key) : bool :=
  match idx with
  | [] => true
  | k :: idx' => forallb (key_leb k) idx' && sorted_keysb idx'
  end.

(** The cell of column number [j] in a row. *)
Definition cell_at (j : nat) (r : index_key * list cell) : cell :=
  nth j (snd r) (CFloat nan).

(** ** A small price table, for the examples *)

Local Open Scope string_scope.

Definition quote (d : date) (s : symbol) (o c v : Z) : price_row :=
  mkPrice d s (F64.of_Z o) (F64.of_Z (Z.max o c)) (F64.of_Z (Z.min o c))
          (F64.of_Z c) (F64.of_Z v).

(** Eight sessions of two symbols. *)
Definition example_prices : list price_row :=
  flat_map (fun i => [quote (17000 + i) "A" (10 + i) (11 + i) (100 + i * i);
                      quote (17000 + i) "B" (20 + i) (19 + i) (50 + i)])%Z
           (map Z.of_nat (seq 0 8)).

(** The same table with other quotes for B, and one more session of B. *)
Definition example_prices_other_changed : list price_row :=
  flat_map (fun i => [quote (17000 + i) "A" (10 + i) (11 + i) (100 + i * i);
                      quote (17000 + i) "B" (30 + i) (31 + i) 7])%Z
           (map Z.of_nat (seq 0 8))
  ++ [quote 17008 "B" 1 2 3]%Z.

(** The same table with other quotes for B, and for A after day 17005. *)
Definition example_prices_later_changed : list price_row :=
  flat_map (fun i => [quote (17000 + i) "A" (10 + i) (11 + i) (100 + i * i);
                      quote (17000 + i) "B" (30 + i) (31 + i) 7])%Z
           (map Z.of_nat (seq 0 6))
  ++ [quote 17006 "A" 40 50 1; quote 17006 "B" 1 2 3]%Z.

(** The same table with other quotes for B, other quotes for A before day
    17002, on day 17002 another open, high, low and volume for A with the
    close it had, and after day 17002 another high, low and volume for A
    with the opens and closes it had. *)
Definition example_prices_own_quotes_changed : list price_row :=
  [quote 17001 "A" 3 4 5; quote 17001 "B" 1 2 3;
   mkPrice 17002 "A" (F64.of_Z 1) (F64.of_Z 99) (F64.of_Z 1) (F64.of_Z 13) (F64.of_Z 7);
   quote 17002 "B" 32 33 7]%Z
  ++ flat_map (fun i => [mkPrice (17000 + i) "A" (F64.of_Z (10 + i)) (F64.of_Z 500)
                                 (F64.of_Z 2) (F64.of_Z (11 + i)) (F64.of_Z 7);
                         quote (17000 + i) "B" (30 + i) (31 + i) 7])%Z
              (map Z.of_nat (seq 3 5)).

(** Two sessions of one symbol, and the same with another close on the
    first day only. *)
Definition two_sessions : list price_row :=
  [quote 1 "A" 1 1 10; quote 2 "A" 2 2 10]%Z.

Definition two_sessions_close_changed : list price_row :=
  [quote 1 "A" 1 2 10; quote 2 "A" 2 2 10]%Z.

Local Close Scope string_scope.

(** A kernel seen from an earlier state: the heap [h] and the bindings [g]
    of that state, the objects [news] allocated since, and the bindings
    [binds] made since. *)
Definition since (h : list object) (g : list (string * nat))
           (news : list object) (binds : list (string * nat)) : kernel :=
  mkKernel (h ++ news) (binds ++ g).

(** A kernel in which only [prices] is bound, to a table of two
    sessions. *)
Definition short_history_kernel : kernel :=
  mkKernel [PricesObj two_sessions] [("prices"%string, 0)].

(** A kernel in which only [prices] is bound, to the example table. *)
Definition example_kernel : kernel :=
  mkKernel [PricesObj example_prices] [("prices"%string, 0)].

(** A kernel after the tables were built and a first pair was aligned:
    [X] is a second name of the features, [y] a series of its own. *)
Definition example_kernel_aligned : kernel :=
  mkKernel [PricesObj example_prices; FrameObj (features Pad example_prices);
            FrameObj (outcomes Pad example_prices); SeriesObj "close_1" []]
           [("y", 3); ("X", 1); ("outcomes", 2); ("features", 1); ("prices", 0)]%string.

(** The rows of symbol [s] in a frame, in index order. *)
Definition rows_of_symbol (s : symbol) (df : DataFrame) : list (index_key * list cell) :=
  restrict (of_symbol s) (rows df).

(** The [i]-th row of a list of rows. *)
Definition no_row : index_key * list cell := ((0%Z, EmptyString), []).

Definition row (i : nat) (rs : list (index_key * list cell)) : index_key * list cell :=
  nth i rs no_row.

(** The cell of column number [j] in the row is missing. *)
Definition missing (j : nat) (r : index_key * list cell) : bool := isna (cell_at j r).

(** Opens and closes of symbol [s] are finite and non-zero. *)
Definition proper_prices (s : symbol) (prices : list price_row) : Prop :=
  forall r, In r prices -> p_symbol r = s ->
            F64.proper (open r) = true /\ F64.proper (close r) = true.



Definition two_sessions_open_missing : list price_row :=
  [quote 1 "A"%string 1 1 10;
   mkPrice 2 "A"%string nan (F64.of_Z 2) (F64.of_Z 2) (F64.of_Z 2) (F64.of_Z 10)]%Z.

(** ** The claims that do not hold, as the specification states them *)

(** C2 as stated: an outcome value that is not missing depends on the
    price rows of its symbol strictly after its date only. *)
Definition outcome_reads_later_rows_only (fm : fill_method) : Prop :=
  forall (P1 P2 : list price_row) (d : date) (s : symbol)
         (r1 r2 : index_key * list cell) (j : nat),
    sorted_index P1 -> sorted_index P2 ->
    restrict_prices (after d s) P1 = restrict_prices (after d s) P2 ->
    In r1 (restrict (at_key (d, s)) (rows (outcomes fm P1))) ->
    In r2 (restrict (at_key (d, s)) (rows (outcomes fm P2))) ->
    isna (cell_at j r1) = false -> isna (cell_at j r2) = false ->
    cell_at j r1 = cell_at j r2.

(** C4 as stated: an outcome is present wherever the current row and the
    shifted row both exist. *)
Definition outcome_present_where_rows_exist (fm : fill_method) : Prop :=
  forall (P : list price_row) (s : symbol) (i : nat),
    let n := length (restrict_prices (of_symbol s) P) in
    let r := row i (rows_of_symbol s (outcomes fm P)) in
    (i + 1 < n -> missing 0 r = false /\ missing 1 r = false)
    /\ (i + 5 < n -> missing 2 r = false).

(** C6 as stated: whatever the history of the prices, no step raises, from
    the cell that builds the features to the fit of the model. *)
Definition pipeline_never_raises (fm : fill_method) : Prop :=
  forall (k : kernel) (l : nat) (P : list price_row) (name : string),
    lookup "prices" (globals k) = Some l ->
    nth_error (heap k) l = Some (PricesObj P) ->
    In name ["open_1"; "close_1"; "close_5"]%string ->
    exists k',
      (features_cell fm ;;; outcomes_cell fm ;;; align_cell name ;;; fit_cell) k
      = Ok (tt, k').


(** ** Shapes and values, used to state the properties *)

(** [df.shape]: the number of rows and the number of columns. *)
Definition shape (df : DataFrame) : nat * nat :=
  (length (rows df), length (columns df)).

(** The value of a series under a label: its first entry under the label,
    and missing when it has none. *)
Definition value_at (k : index_key) (y : Column) : cell :=
  match matches k y with
  | e :: _ => snd e
  | [] => CFloat nan
  end.

(** A data reader for the examples: three sessions, latest first, whatever
    the symbol; the adjusted prices are half the raw ones. *)
Definition example_reader (s : symbol) (source : string) (b e : option date)
  : list reader_row :=
  map (fun d => mkReaderRow d (F64.of_Z (2 * d)) (F64.of_Z (2 * d + 2))
                            (F64.of_Z (2 * d)) (F64.of_Z (2 * d + 2)) (F64.of_Z 1000)
                            (F64.of_Z d) (F64.of_Z (d + 1)) (F64.of_Z d)
                            (F64.of_Z (d + 1)) (F64.of_Z 2000))%Z
      [17002; 17001; 17000]%Z.

(** * Properties *)

(** ** The definitions on small inputs *)

(** 2016-12-30, the last session of the notebook, is day 17165: a Friday,
    the 30th; 2016-12-27 is a Tuesday, the 27th.  The leap day of 2000 is
    day 11016. *)
Example weekday_of_last_session : (weekday 17165 = 4 /\ day 17165 = 30)%Z.
Proof. split; reflexivity. Qed.

Example weekday_of_a_tuesday : (weekday 17162 = 1 /\ day 17162 = 27)%Z.
Proof. split; reflexivity. Qed.

Example day_of_leap_day : (day 11016 = 29 /\ day 11017 = 1 /\ day (-1) = 31)%Z.
Proof. repeat split; reflexivity. Qed.

Example shift_back_and_forth :
  shift 1 (map F64.of_Z [10; 11; 12]%Z) = [nan; F64.of_Z 10; F64.of_Z 11]
  /\ shift (-2)%Z (map F64.of_Z [10; 11; 12]%Z) = [F64.of_Z 12; nan; nan].
Proof. split; reflexivity. Qed.

(** In binary64, 12 / 10 - 1 is 0x1.9999999999998p-3 and 10 / 12 - 1 is
    -0x1.5555555555554p-3. *)
Example pct_change_two_back :
  pct_change Pad 2 (map F64.of_Z [10; 11; 12]%Z)
  = [nan; nan; S754_finite false 7205759403792792 (-55)]
  /\ pct_change Pad (-2)%Z (map F64.of_Z [10; 11; 12]%Z)
     = [S754_finite true 6004799503160660 (-55); nan; nan].
Proof. split; vm_compute; reflexivity. Qed.

Example pct_change_pads_a_gap :
  pct_change Pad 1 [F64.of_Z 4; nan; F64.of_Z 8]
  = [nan; S754_zero false; F64.of_Z 1]
  /\ pct_change PadMasked 1 [F64.of_Z 4; nan; F64.of_Z 8]
     = [nan; nan; F64.of_Z 1]
  /\ pct_change NoFill 1 [F64.of_Z 4; nan; F64.of_Z 8] = [nan; nan; nan].
Proof. repeat split; vm_compute; reflexivity. Qed.

(** A shift within the groups of an interleaved table. *)
Example groupby_shift_interleaved :
  map snd (groupby (shift 1)
             [((1%Z, "A"%string), F64.of_Z 1); ((1%Z, "B"%string), F64.of_Z 2);
              ((2%Z, "A"%string), F64.of_Z 3); ((2%Z, "B"%string), F64.of_Z 4)])
  = [nan; nan; F64.of_Z 1; F64.of_Z 2].
Proof. vm_compute. reflexivity. Qed.

(** Sixteen price rows give six rows of features (five lost per symbol),
    and four rows of training matrix for [close_1] (one more lost per
    symbol), as 1008 rows give 998 and 996 in the notebook. *)
Example example_row_counts :
  length example_prices = 16
  /\ length (rows (features Pad example_prices)) = 6
  /\ (exists X, training_matrix Pad "close_1" example_prices = Ok X
                /\ length (rows X) = 4)
  /\ exists X, training_matrix Pad "close_5" example_prices = Ok X
               /\ length (rows X) = 0.
Proof.
  split; [reflexivity|]. split; [vm_compute; reflexivity|].
  split; eexists; (split; [vm_compute; reflexivity|reflexivity]).
Qed.

Example sort_index_example :
  map p_key (sort_index (rev two_sessions ++ [quote 1 "0A"%string 1 1 1]%Z))
  = [(1%Z, "0A"%string); (1%Z, "A"%string); (2%Z, "A"%string)].
Proof. vm_compute. reflexivity. Qed.

(** An outcome column that does not exist: the attribute access raises
    [AttributeError], the item access [KeyError]. *)
Example unknown_outcome_column :
  training_pair (features Pad example_prices) (outcomes Pad example_prices)
                "close_9"%string = Raise AttributeError
  /\ getitem (outcomes Pad example_prices) "close_9"%string = Raise KeyError.
Proof. split; reflexivity. Qed.

(** A label that two columns carry gives both columns, each time it is
    requested. *)
Example getitem_columns_repeated_label :
  getitem_columns
    (mkFrame ["a"; "a"; "y"]%string
             [((1%Z, "A"%string), [CInt 1; CInt 2; CInt 3])])
    ["a"; "a"]%string
  = Ok (mkFrame ["a"; "a"; "a"; "a"]%string
                [((1%Z, "A"%string), [CInt 1; CInt 2; CInt 1; CInt 2])]).
Proof. reflexivity. Qed.

(** The fit accepts the pair aligned for [close_1] on the example table,
    and raises for [close_5]: with eight sessions, no row has both its
    features and its outcome five sessions later. *)
Example fit_on_the_example_table :
  (exists k', (features_cell Pad ;;; outcomes_cell Pad ;;; align_cell "close_1"%string
                 ;;; fit_cell) example_kernel = Ok (tt, k'))
  /\ (features_cell Pad ;;; outcomes_cell Pad ;;; align_cell "close_5"%string
        ;;; fit_cell) example_kernel = Raise ValueError.
Proof. split; [eexists|]; vm_compute; reflexivity. Qed.

(** ** Lists *)

Lemma tabulate_length {A} n (f : nat -> A) : length (tabulate n f) = n.
Proof. unfold tabulate. now rewrite length_map, length_seq. Qed.

Lemma tabulate_nth {A} n (f : nat -> A) i d :
  i < n -> nth i (tabulate n f) d = f i.
Proof.
  intros Hi. unfold tabulate.
  rewrite (nth_indep _ d (f 0)) by now rewrite length_map, length_seq.
  rewrite map_nth, seq_nth by assumption. reflexivity.
Qed.

Lemma zip_with_length {A B C} (f : A -> B -> C) a b :
  length (zip_with f a b) = Nat.min (length a) (length b).
Proof.
  revert b. induction a as [|x a IH]; intros [|y b]; simpl; auto.
Qed.

Lemma zip_with_firstn {A B C} (f : A -> B -> C) n a b :
  firstn n (zip_with f a b) = zip_with f (firstn n a) (firstn n b).
Proof.
  revert a b. induction n as [|n IH]; intros [|x a] [|y b]; simpl; auto.
  f_equal. apply IH.
Qed.

Lemma zip_with_skipn {A B C} (f : A -> B -> C) n a b :
  skipn n (zip_with f a b) = zip_with f (skipn n a) (skipn n b).
Proof.
  revert a b. induction n as [|n IH]; intros [|x a] [|y b]; simpl; auto.
  destruct (skipn n a); reflexivity.
Qed.

Lemma zip_with_nth {A B C} (f : A -> B -> C) a b i da db dc :
  i < length a -> i < length b ->
  nth i (zip_with f a b) dc = f (nth i a da) (nth i b db).
Proof.
  revert a b. induction i as [|i IH]; intros [|x a] [|y b]; simpl; intros; try lia; auto.
  apply IH; lia.
Qed.

Lemma zip_with_map_fst {A B C} (f : A -> B -> C) (g : C -> index_key)
      (h : A -> index_key) a b :
  (forall x y, g (f x y) = h x) -> length a = length b ->
  map g (zip_with f a b) = map h a.
Proof.
  intros Hg. revert b. induction a as [|x a IH]; intros [|y b]; simpl; intros; try lia; auto.
  rewrite Hg. f_equal. apply IH. lia.
Qed.

(** ** Operations on one group *)

Lemma shift_length k l : length (shift k l) = length l.
Proof. apply tabulate_length. Qed.

Lemma shift_nth k l i :
  i < length l ->
  nth i (shift k l) nan =
  if ((0 <=? Z.of_nat i - k) && (Z.of_nat i - k <? Z.of_nat (length l)))%Z
  then nth (Z.to_nat (Z.of_nat i - k)) l nan else nan.
Proof. intros Hi. unfold shift. now rewrite tabulate_nth. Qed.

(** A shift backwards reads earlier rows only. *)
Lemma shift_firstn k n l :
  (0 <= k)%Z -> shift k (firstn n l) = firstn n (shift k l).
Proof.
  intros Hk. apply (nth_ext _ _ nan nan).
  - rewrite shift_length, !length_firstn, shift_length. reflexivity.
  - intros i Hi. rewrite shift_length, length_firstn in Hi.
    rewrite nth_firstn. replace (i <? n) with true by (symmetry; apply Nat.ltb_lt; lia).
    rewrite !shift_nth by (rewrite ?length_firstn; lia).
    rewrite length_firstn.
    destruct (0 <=? Z.of_nat i - k)%Z eqn:H0; simpl; [|reflexivity].
    apply Z.leb_le in H0.
    replace (Z.of_nat i - k <? Z.of_nat (Nat.min n (length l)))%Z with true
      by (symmetry; apply Z.ltb_lt; lia).
    replace (Z.of_nat i - k <? Z.of_nat (length l))%Z with true
      by (symmetry; apply Z.ltb_lt; lia).
    rewrite nth_firstn.
    replace (Z.to_nat (Z.of_nat i - k) <? n) with true
      by (symmetry; apply Nat.ltb_lt; lia).
    reflexivity.
Qed.

(** A shift forwards reads later rows only. *)
Lemma shift_skipn k n l :
  (k <= 0)%Z -> shift k (skipn n l) = skipn n (shift k l).
Proof.
  intros Hk. apply (nth_ext _ _ nan nan).
  - rewrite shift_length, !length_skipn, shift_length. reflexivity.
  - intros i Hi. rewrite shift_length, length_skipn in Hi.
    rewrite nth_skipn.
    rewrite !shift_nth by (rewrite ?length_skipn; lia).
    rewrite length_skipn.
    replace (0 <=? Z.of_nat i - k)%Z with true by (symmetry; apply Z.leb_le; lia).
    replace (0 <=? Z.of_nat (n + i) - k)%Z with true by (symmetry; apply Z.leb_le; lia).
    simpl.
    destruct (Z.of_nat i - k <? Z.of_nat (length l - n))%Z eqn:H1.
    + apply Z.ltb_lt in H1.
      replace (Z.of_nat (n + i) - k <? Z.of_nat (length l))%Z with true
        by (symmetry; apply Z.ltb_lt; lia).
      rewrite nth_skipn. f_equal. lia.
    + apply Z.ltb_ge in H1.
      replace (Z.of_nat (n + i) - k <? Z.of_nat (length l))%Z with false
        by (symmetry; apply Z.ltb_ge; lia).
      reflexivity.
Qed.

Lemma diff_length k l : length (diff k l) = length l.
Proof. unfold diff. rewrite zip_with_length, shift_length. lia. Qed.

Lemma diff_firstn k n l :
  (0 <= k)%Z -> diff k (firstn n l) = firstn n (diff k l).
Proof.
  intros Hk. unfold diff. now rewrite zip_with_firstn, shift_firstn.
Qed.

Lemma ffill_from_length c l : length (ffill_from c l) = length l.
Proof. revert c. induction l as [|x l IH]; simpl; intros; auto. Qed.

Lemma ffill_from_firstn c n l :
  ffill_from c (firstn n l) = firstn n (ffill_from c l).
Proof.
  revert c l. induction n as [|n IH]; intros c [|x l]; simpl; auto.
  f_equal. apply IH.
Qed.

Lemma ffill_from_head_present c l :
  head_present l = true -> ffill_from c l = ffill l.
Proof.
  unfold ffill. destruct l as [|x l]; simpl; auto.
  destruct (F64.isnan x); simpl; [discriminate|reflexivity].
Qed.

Lemma ffill_from_skipn c c' n l :
  head_present (skipn n l) = true ->
  ffill_from c' (skipn n l) = skipn n (ffill_from c l).
Proof.
  revert l c. induction n as [|n IH]; intros l c H; simpl.
  - simpl in H. now rewrite (ffill_from_head_present c), (ffill_from_head_present c').
  - destruct l as [|x l]; simpl; auto.
Qed.

Lemma ffill_skipn n l :
  head_present (skipn n l) = true -> ffill (skipn n l) = skipn n (ffill l).
Proof. apply ffill_from_skipn. Qed.

Lemma ffill_no_nan c l :
  forallb (fun x => negb (F64.isnan x)) l = true -> ffill_from c l = l.
Proof.
  revert c. induction l as [|x l IH]; simpl; intros c H; auto.
  apply andb_true_iff in H as [Hx Hl].
  destruct (F64.isnan x); [discriminate|]. f_equal. now apply IH.
Qed.

Lemma pct_change_length fm k l : length (pct_change fm k l) = length l.
Proof.
  unfold pct_change, ffill.
  destruct fm; rewrite ?zip_with_length, ?shift_length, ?ffill_from_length; lia.
Qed.

Lemma pct_change_firstn fm k n l :
  (0 <= k)%Z -> pct_change fm k (firstn n l) = firstn n (pct_change fm k l).
Proof.
  intros Hk. unfold pct_change, ffill.
  destruct fm; rewrite ?zip_with_firstn, ?ffill_from_firstn, ?shift_firstn by assumption;
    reflexivity.
Qed.

Lemma pct_change_skipn fm k n l :
  (k <= 0)%Z -> head_present (skipn n l) = true ->
  pct_change fm k (skipn n l) = skipn n (pct_change fm k l).
Proof.
  intros Hk Hh. unfold pct_change.
  destruct fm; rewrite ?zip_with_skipn, ?ffill_skipn, ?shift_skipn by assumption;
    reflexivity.
Qed.

(** ** groupby *)

Lemma restrict_map_fst {A} p (l : list (index_key * A)) :
  map fst (restrict p l) = filter p (map fst l).
Proof.
  unfold restrict. induction l as [|x l IH]; simpl; auto.
  destruct (p (fst x)); simpl; now rewrite IH.
Qed.

Lemma restrict_cons {A} p (x : index_key * A) l :
  restrict p (x :: l) = if p (fst x) then x :: restrict p l else restrict p l.
Proof. reflexivity. Qed.

Lemma restrict_comm {A} p q (l : list (index_key * A)) :
  restrict p (restrict q l) = restrict q (restrict p l).
Proof.
  unfold restrict. induction l as [|x l IH]; simpl; auto.
  destruct (q (fst x)) eqn:Hq, (p (fst x)) eqn:Hp; simpl;
    rewrite ?Hq, ?Hp, IH; reflexivity.
Qed.

Lemma restrict_ext {A} p q (l : list (index_key * A)) :
  (forall r, In r l -> p (fst r) = q (fst r)) -> restrict p l = restrict q l.
Proof. intros H. unfold restrict. apply filter_ext_in. exact H. Qed.

Lemma restrict_all {A} p (l : list (index_key * A)) :
  (forall r, In r l -> p (fst r) = true) -> restrict p l = l.
Proof.
  unfold restrict. induction l as [|x l IH]; simpl; intros H; auto.
  rewrite (H x) by auto. f_equal. apply IH. auto.
Qed.

Lemma restrict_none {A} p (l : list (index_key * A)) :
  (forall r, In r l -> p (fst r) = false) -> restrict p l = [].
Proof.
  unfold restrict. induction l as [|x l IH]; simpl; intros H; auto.
  rewrite (H x) by auto. apply IH. auto.
Qed.

Lemma restrict_In {A} p (l : list (index_key * A)) r :
  In r (restrict p l) <-> In r l /\ p (fst r) = true.
Proof. unfold restrict. apply filter_In. Qed.

Lemma scatter_index res seen S : map fst (scatter res seen S) = map fst S.
Proof.
  revert seen. induction S as [|[k v] S IH]; simpl; intros; auto.
  now rewrite IH.
Qed.

Lemma groupby_index f S : map fst (groupby f S) = map fst S.
Proof. apply scatter_index. Qed.

Lemma groupby_length f S : length (groupby f S) = length S.
Proof. rewrite <- (length_map fst), groupby_index. apply length_map. Qed.

Lemma count_symbol_cons s x seen :
  count_symbol s (x :: seen) =
  if String.eqb x s then S (count_symbol s seen) else count_symbol s seen.
Proof.
  unfold count_symbol. simpl. rewrite String.eqb_sym.
  destruct (String.eqb x s); reflexivity.
Qed.

(** The rows of symbol [s] take the values of [res s], in order. *)
Lemma scatter_of_symbol res seen S s :
  restrict (of_symbol s) (scatter res seen S) =
  zip_with (fun r i => (fst r, nth i (res s) nan))
           (restrict (of_symbol s) S)
           (seq (count_symbol s seen) (length (restrict (of_symbol s) S))).
Proof.
  revert seen. induction S as [|[k v] S IH]; intros seen; auto.
  cbn [scatter]. rewrite !restrict_cons. cbn [fst].
  rewrite IH, count_symbol_cons.
  assert (Hk : of_symbol s k = String.eqb (snd k) s) by reflexivity.
  rewrite Hk. destruct (String.eqb (snd k) s) eqn:Hs.
  - apply String.eqb_eq in Hs. subst s. reflexivity.
  - reflexivity.
Qed.

Lemma zip_with_seq_combine (T : Series) (l : list float) c :
  length l = c + length T ->
  zip_with (fun r i => (fst r, nth i l nan)) T (seq c (length T)) =
  combine (map fst T) (skipn c l).
Proof.
  revert c. induction T as [|[k v] T IH]; intros c Hl; simpl in *; auto.
  assert (Hc : c < length l) by lia.
  destruct (skipn c l) as [|y l'] eqn:Hsk.
  - apply (f_equal (@length _)) in Hsk. rewrite length_skipn in Hsk. simpl in Hsk. lia.
  - assert (Hy : nth c l nan = y).
    { rewrite <- (Nat.add_0_r c), <- nth_skipn, Hsk. reflexivity. }
    assert (Hl' : skipn (S c) l = l').
    { replace (S c) with (1 + c) by lia. rewrite <- skipn_skipn, Hsk. reflexivity. }
    rewrite Hy. f_equal. rewrite IH by lia. now rewrite Hl'.
Qed.

(** Within the group of one symbol, [groupby f] is [f] on the group. *)
Lemma groupby_of_symbol f S s :
  (forall l, length (f l) = length l) ->
  restrict (of_symbol s) (groupby f S) = transform f (restrict (of_symbol s) S).
Proof.
  intros Hf. unfold groupby. rewrite scatter_of_symbol.
  unfold count_symbol. simpl.
  rewrite zip_with_seq_combine.
  - reflexivity.
  - rewrite Hf. unfold group. rewrite length_map. reflexivity.
Qed.

(** A keyed list is determined by its index and its groups. *)
Lemma by_groups_ext {A} (a b : list (index_key * A)) :
  map fst a = map fst b ->
  (forall s, restrict (of_symbol s) a = restrict (of_symbol s) b) ->
  a = b.
Proof.
  revert b. induction a as [|[k v] a IH]; intros [|[k' v'] b] Hi Hg;
    simpl in Hi; try discriminate; auto.
  injection Hi as Hk Hi. subst k'.
  assert (Hh := Hg (snd k)). unfold restrict, of_symbol in Hh. simpl in Hh.
  rewrite String.eqb_refl in Hh. injection Hh as Hv Hh.
  subst v'. f_equal. apply IH; auto.
  intros s. specialize (Hg s). unfold restrict, of_symbol in *. simpl in Hg.
  destruct (String.eqb (snd k) s); [now injection Hg|exact Hg].
Qed.

Lemma combine_map_fst {A B} (a : list A) (b : list B) :
  length a = length b -> map fst (combine a b) = a.
Proof.
  revert b. induction a as [|x a IH]; intros [|y b]; simpl; intros H; try lia; auto.
  f_equal. apply IH. lia.
Qed.

Lemma combine_map_snd {A B} (a : list A) (b : list B) :
  length a = length b -> map snd (combine a b) = b.
Proof.
  revert b. induction a as [|x a IH]; intros [|y b]; simpl; intros H; try lia; auto.
  f_equal. apply IH. lia.
Qed.

Lemma transform_index f T :
  length (f (map snd T)) = length T -> map fst (transform f T) = map fst T.
Proof.
  intros H. unfold transform. apply combine_map_fst.
  rewrite length_map. lia.
Qed.

(** When restricting the groups commutes with [f], restricting the table
    commutes with [groupby f]. *)
Lemma groupby_restrict f p S :
  (forall l, length (f l) = length l) ->
  (forall s, restrict p (transform f (restrict (of_symbol s) S)) =
             transform f (restrict p (restrict (of_symbol s) S))) ->
  restrict p (groupby f S) = groupby f (restrict p S).
Proof.
  intros Hf H. apply by_groups_ext.
  - now rewrite restrict_map_fst, !groupby_index, restrict_map_fst.
  - intros s.
    rewrite restrict_comm, !groupby_of_symbol by assumption.
    rewrite H. now rewrite restrict_comm.
Qed.

(** ** Sorted indexes *)

Lemma key_leb_date a b : key_leb a b = true -> (fst a <= fst b)%Z.
Proof.
  unfold key_leb. intros H. apply orb_true_iff in H as [H|H].
  - apply Z.ltb_lt in H. lia.
  - apply andb_true_iff in H as [H _]. apply Z.eqb_eq in H. lia.
Qed.

Lemma StronglySorted_filter {A} (R : A -> A -> Prop) p l :
  StronglySorted R l -> StronglySorted R (filter p l).
Proof.
  induction 1 as [|a l Hl IH Ha]; simpl; [constructor|].
  destruct (p a); auto. constructor; auto.
  rewrite Forall_forall in *. intros x Hx. apply filter_In in Hx. apply Ha, Hx.
Qed.

Lemma restrict_length {A} p (l : list (index_key * A)) :
  length (restrict p l) = length (filter p (map fst l)).
Proof. now rewrite <- restrict_map_fst, length_map. Qed.

(** In a sorted table, the labels of a downward closed set come first. *)
Lemma sorted_restrict_prefix {A} p (l : list (index_key * A)) :
  StronglySorted key_le (map fst l) -> down_closed p ->
  restrict p l = firstn (length (filter p (map fst l))) l.
Proof.
  intros Hs Hp. induction l as [|x l IH]; simpl in *; auto.
  apply StronglySorted_inv in Hs as [Hs Hx].
  rewrite restrict_cons. destruct (p (fst x)) eqn:Hpx; simpl.
  - f_equal. now apply IH.
  - rewrite <- restrict_length. rewrite restrict_none; [reflexivity|].
    intros r Hr. destruct (p (fst r)) eqn:Hpr; auto.
    rewrite Forall_forall in Hx.
    rewrite <- Hpx. symmetry. apply (Hp _ (fst r)); auto.
    apply Hx. now apply in_map.
Qed.

(** ... and the labels of an upward closed set come last. *)
Lemma sorted_restrict_suffix {A} p (l : list (index_key * A)) :
  StronglySorted key_le (map fst l) -> up_closed p ->
  restrict p l = skipn (length l - length (filter p (map fst l))) l.
Proof.
  intros Hs Hp. induction l as [|x l IH]; [reflexivity|].
  cbn [map] in Hs. apply StronglySorted_inv in Hs as [Hs Hx].
  rewrite restrict_cons. cbn [map filter]. destruct (p (fst x)) eqn:Hpx.
  - cbn [length]. rewrite Nat.sub_succ, <- restrict_length, restrict_all.
    + now rewrite Nat.sub_diag.
    + intros r Hr. rewrite Forall_forall in Hx.
      apply (Hp (fst x)); auto. apply Hx. now apply in_map.
  - assert (Hle : length (filter p (map fst l)) <= length l).
    { rewrite <- (length_map fst l). apply filter_length_le. }
    cbn [length]. rewrite Nat.sub_succ_l by exact Hle.
    cbn [skipn]. now apply IH.
Qed.

Lemma combine_skipn {A B} n (a : list A) (b : list B) :
  skipn n (combine a b) = combine (skipn n a) (skipn n b).
Proof.
  revert a b. induction n as [|n IH]; intros [|x a] [|y b]; simpl; auto.
  destruct (skipn n a); reflexivity.
Qed.

(** ** Restricting a transformed group *)

Lemma transform_In f T r : In r (transform f T) -> In (fst r) (map fst T).
Proof.
  unfold transform. destruct r as [k v]. intros H.
  apply in_combine_l in H. exact H.
Qed.

Lemma transform_restrict_all f p T :
  (forall r, In r T -> p (fst r) = true) ->
  restrict p (transform f T) = transform f (restrict p T).
Proof.
  intros H. rewrite (restrict_all p T) by assumption.
  apply restrict_all. intros r Hr. apply transform_In in Hr.
  apply in_map_iff in Hr as (r' & Hk & Hr'). rewrite <- Hk. auto.
Qed.

Lemma transform_restrict_none f p T :
  (forall r, In r T -> p (fst r) = false) ->
  restrict p (transform f T) = transform f (restrict p T).
Proof.
  intros H. rewrite (restrict_none p T) by assumption.
  apply restrict_none. intros r Hr. apply transform_In in Hr.
  apply in_map_iff in Hr as (r' & Hk & Hr'). rewrite <- Hk. auto.
Qed.

Lemma transform_firstn f n T :
  (forall n l, f (firstn n l) = firstn n (f l)) ->
  firstn n (transform f T) = transform f (firstn n T).
Proof.
  intros Hf. unfold transform.
  now rewrite combine_firstn, firstn_map, <- Hf, firstn_map.
Qed.

Lemma transform_restrict_prefix f p T :
  (forall l, length (f l) = length l) ->
  (forall n l, f (firstn n l) = firstn n (f l)) ->
  StronglySorted key_le (map fst T) -> down_closed p ->
  restrict p (transform f T) = transform f (restrict p T).
Proof.
  intros Hl Hf Hs Hp.
  assert (Hi : map fst (transform f T) = map fst T).
  { apply transform_index. now rewrite Hl, length_map. }
  rewrite (sorted_restrict_prefix p T) by assumption.
  rewrite sorted_restrict_prefix by (rewrite ?Hi; assumption).
  rewrite Hi. now apply transform_firstn.
Qed.

Lemma transform_restrict_suffix f p T :
  (forall l, length (f l) = length l) ->
  (forall n, map snd (restrict p T) = skipn n (map snd T) ->
             f (skipn n (map snd T)) = skipn n (f (map snd T))) ->
  StronglySorted key_le (map fst T) -> up_closed p ->
  restrict p (transform f T) = transform f (restrict p T).
Proof.
  intros Hl Hf Hs Hp.
  assert (Hi : map fst (transform f T) = map fst T).
  { apply transform_index. now rewrite Hl, length_map. }
  assert (HT := sorted_restrict_suffix p T Hs Hp).
  rewrite sorted_restrict_suffix by (rewrite ?Hi; assumption).
  rewrite Hi. rewrite <- (length_map fst (transform f T)), Hi, length_map.
  set (n := length T - length (filter p (map fst T))) in *.
  rewrite HT. unfold transform.
  rewrite combine_skipn, <- !skipn_map, Hf; [reflexivity|].
  now rewrite HT, skipn_map.
Qed.

Lemma of_symbol_restrict {A} s (l : list (index_key * A)) r :
  In r (restrict (of_symbol s) l) -> snd (fst r) = s.
Proof.
  intros H. apply restrict_In in H as [_ H]. now apply String.eqb_eq in H.
Qed.

Lemma restrict_sorted {A} p (l : list (index_key * A)) :
  StronglySorted key_le (map fst l) ->
  StronglySorted key_le (map fst (restrict p l)).
Proof. intros H. rewrite restrict_map_fst. now apply StronglySorted_filter. Qed.

(** *** The three restrictions of a grouped transformation *)

(** Another symbol's rows never matter. *)
Lemma groupby_restrict_symbol f s0 S :
  (forall l, length (f l) = length l) ->
  restrict (of_symbol s0) (groupby f S) = groupby f (restrict (of_symbol s0) S).
Proof.
  intros Hl. apply groupby_restrict; auto. intros s.
  destruct (String.eqb s s0) eqn:Hs.
  - apply String.eqb_eq in Hs. subst s0. apply transform_restrict_all.
    intros r Hr. apply of_symbol_restrict in Hr. unfold of_symbol.
    now apply String.eqb_eq.
  - apply transform_restrict_none.
    intros r Hr. apply of_symbol_restrict in Hr. unfold of_symbol.
    now rewrite Hr.
Qed.

Lemma until_down_closed d : down_closed (fun k => (fst k <=? d)%Z).
Proof.
  intros a b Hab Hb. apply key_leb_date in Hab. apply Z.leb_le in Hb.
  apply Z.leb_le. lia.
Qed.

Lemma from_up_closed d : up_closed (fun k => (d <=? fst k)%Z).
Proof.
  intros a b Hab Hb. apply key_leb_date in Hab. apply Z.leb_le in Hb.
  apply Z.leb_le. lia.
Qed.

(** A transformation that reads earlier rows only commutes with cutting the
    table of a symbol at a date. *)
Lemma groupby_restrict_until f d s0 S :
  (forall l, length (f l) = length l) ->
  (forall n l, f (firstn n l) = firstn n (f l)) ->
  StronglySorted key_le (map fst S) ->
  restrict (until d s0) (groupby f S) = groupby f (restrict (until d s0) S).
Proof.
  intros Hl Hf Hs. apply groupby_restrict; auto. intros s.
  destruct (String.eqb s s0) eqn:Hss.
  - apply String.eqb_eq in Hss. subst s0.
    set (T := restrict (of_symbol s) S).
    assert (HT : forall r, In r T -> until d s (fst r) = (fst (fst r) <=? d)%Z).
    { intros r Hr. apply of_symbol_restrict in Hr. unfold until.
      now rewrite Hr, String.eqb_refl. }
    rewrite (restrict_ext (until d s) (fun k => (fst k <=? d)%Z) T HT).
    rewrite (restrict_ext (until d s) (fun k => (fst k <=? d)%Z) (transform f T)).
    + apply transform_restrict_prefix; auto using until_down_closed.
      now apply restrict_sorted.
    + intros r Hr. apply transform_In in Hr.
      apply in_map_iff in Hr as (r' & Hk & Hr'). rewrite <- Hk. auto.
  - apply transform_restrict_none.
    intros r Hr. apply of_symbol_restrict in Hr. unfold until.
    now rewrite Hr, Hss.
Qed.

Lemma restrict_from_of_symbol {A} d s (l : list (index_key * A)) :
  restrict (from d s) l = restrict (fun k => (d <=? fst k)%Z) (restrict (of_symbol s) l).
Proof.
  unfold restrict, from, of_symbol. induction l as [|x l IH]; simpl; auto.
  destruct (String.eqb (snd (fst x)) s); simpl;
    destruct (d <=? fst (fst x))%Z; simpl; rewrite ?IH; auto.
Qed.

(** A transformation that reads later rows only commutes with keeping the
    table of a symbol from a date on. *)
Lemma groupby_restrict_from f d s0 S :
  (forall l, length (f l) = length l) ->
  (forall n, map snd (restrict (from d s0) S) = skipn n (group s0 S) ->
             f (skipn n (group s0 S)) = skipn n (f (group s0 S))) ->
  StronglySorted key_le (map fst S) ->
  restrict (from d s0) (groupby f S) = groupby f (restrict (from d s0) S).
Proof.
  intros Hl Hf Hs. apply groupby_restrict; auto. intros s.
  destruct (String.eqb s s0) eqn:Hss.
  - apply String.eqb_eq in Hss. subst s0.
    set (T := restrict (of_symbol s) S).
    assert (HT : forall r, In r T -> from d s (fst r) = (d <=? fst (fst r))%Z).
    { intros r Hr. apply of_symbol_restrict in Hr. unfold from.
      now rewrite Hr, String.eqb_refl. }
    assert (HS := restrict_from_of_symbol d s S). fold T in HS.
    rewrite (restrict_ext (from d s) (fun k => (d <=? fst k)%Z) T HT).
    rewrite (restrict_ext (from d s) (fun k => (d <=? fst k)%Z) (transform f T)).
    + apply transform_restrict_suffix; auto using from_up_closed.
      * intros n Hn. apply Hf. now rewrite HS.
      * now apply restrict_sorted.
    + intros r Hr. apply transform_In in Hr.
      apply in_map_iff in Hr as (r' & Hk & Hr'). rewrite <- Hk. auto.
  - apply transform_restrict_none.
    intros r Hr. apply of_symbol_restrict in Hr. unfold from.
    now rewrite Hr, Hss.
Qed.

(** ** Columns and frames under a restriction *)

Lemma restrict_prices_keys p P :
  map p_key (restrict_prices p P) = filter p (map p_key P).
Proof.
  unfold restrict_prices. induction P as [|r P IH]; simpl; auto.
  destruct (p (p_key r)); simpl; now rewrite IH.
Qed.

Lemma column_restrict c p P :
  column c (restrict_prices p P) = restrict p (column c P).
Proof.
  unfold column, restrict_prices, restrict. induction P as [|r P IH]; simpl; auto.
  destruct (p (p_key r)); simpl; now rewrite IH.
Qed.

Lemma column_index c P : map fst (column c P) = map p_key P.
Proof. unfold column. rewrite map_map. reflexivity. Qed.

Lemma by_symbol_index f c P : map fst (by_symbol f c P) = map p_key P.
Proof. unfold by_symbol. now rewrite groupby_index, column_index. Qed.

Lemma same_index_length {A B} (a : list (index_key * A)) (b : list (index_key * B)) :
  map fst a = map fst b -> length a = length b.
Proof. intros H. apply (f_equal (@length _)) in H. now rewrite !length_map in H. Qed.

Lemma series_op_index g a b :
  map fst a = map fst b -> map fst (series_op g a b) = map fst a.
Proof.
  intros H. unfold series_op. apply zip_with_map_fst; auto.
  now apply same_index_length.
Qed.

Lemma series_sub_scalar_index a c : map fst (series_sub_scalar a c) = map fst a.
Proof. unfold series_sub_scalar. rewrite map_map. reflexivity. Qed.

Lemma float_column_index S : map fst (float_column S) = map fst S.
Proof. unfold float_column. rewrite map_map. reflexivity. Qed.

Lemma add_column_index col rs :
  map fst col = map fst rs -> map fst (add_column col rs) = map fst rs.
Proof.
  intros H. unfold add_column. apply zip_with_map_fst; auto.
  symmetry. now apply same_index_length.
Qed.

Lemma restrict_zip_with {A B C} (g : index_key * A -> index_key * B -> index_key * C)
      p (a : list (index_key * A)) (b : list (index_key * B)) :
  (forall x y, fst (g x y) = fst x) ->
  map fst a = map fst b ->
  restrict p (zip_with g a b) = zip_with g (restrict p a) (restrict p b).
Proof.
  intros Hg. revert b. induction a as [|x a IH]; intros [|y b] H;
    simpl in H; try discriminate; auto.
  injection H as Hk H. simpl. rewrite !restrict_cons, Hg, <- Hk.
  destruct (p (fst x)); simpl; now rewrite IH.
Qed.

Lemma restrict_series_op g p a b :
  map fst a = map fst b ->
  restrict p (series_op g a b) = series_op g (restrict p a) (restrict p b).
Proof. intros H. unfold series_op. now apply restrict_zip_with. Qed.

Lemma restrict_map {A B} (g : A -> B) p (l : list (index_key * A)) :
  restrict p (map (fun e => (fst e, g (snd e))) l) =
  map (fun e => (fst e, g (snd e))) (restrict p l).
Proof.
  unfold restrict. induction l as [|x l IH]; simpl; auto.
  destruct (p (fst x)); simpl; now rewrite IH.
Qed.

Lemma restrict_index_map {A} (g : index_key -> A) p idx :
  restrict p (map (fun k => (k, g k)) idx) = map (fun k => (k, g k)) (filter p idx).
Proof.
  unfold restrict. induction idx as [|k idx IH]; simpl; auto.
  destruct (p k); simpl; now rewrite IH.
Qed.

Lemma restrict_add_column p col rs :
  map fst col = map fst rs ->
  restrict p (add_column col rs) = add_column (restrict p col) (restrict p rs).
Proof. intros H. unfold add_column. now apply restrict_zip_with. Qed.

Lemma restrict_complete p rs :
  restrict p (filter complete rs) = filter complete (restrict p rs).
Proof.
  unfold restrict. induction rs as [|x rs IH]; simpl; auto.
  destruct (complete x) eqn:Hc, (p (fst x)) eqn:Hp; simpl;
    rewrite ?Hc, ?Hp, IH; reflexivity.
Qed.

Lemma series_op_on g a b idx :
  map fst a = idx -> map fst b = idx -> map fst (series_op g a b) = idx.
Proof. intros Ha Hb. rewrite series_op_index; congruence. Qed.

Lemma volume_change_ratio_index P : map fst (volume_change_ratio P) = map p_key P.
Proof. apply series_op_on; apply by_symbol_index. Qed.

Lemma momentum_5_day_index fm P : map fst (momentum_5_day fm P) = map p_key P.
Proof. apply by_symbol_index. Qed.

Lemma intraday_chg_index P : map fst (intraday_chg P) = map p_key P.
Proof. repeat apply series_op_on; apply by_symbol_index. Qed.

Lemma open_1_index P : map fst (open_1 P) = map p_key P.
Proof.
  unfold open_1. rewrite series_sub_scalar_index.
  apply series_op_on; apply by_symbol_index.
Qed.

Lemma close_1_index fm P : map fst (close_1 fm P) = map p_key P.
Proof. apply by_symbol_index. Qed.

Lemma close_5_index fm P : map fst (close_5 fm P) = map p_key P.
Proof. apply by_symbol_index. Qed.

Lemma new_frame_index idx : map fst (map (fun k : index_key => (k, @nil cell)) idx) = idx.
Proof. rewrite map_map. apply map_id. Qed.

Lemma day_column_index (g : date -> Z) idx :
  map fst (map (fun k : index_key => (k, CInt (g (fst k)))) idx) = idx.
Proof. rewrite map_map. apply map_id. Qed.

Lemma add_column_on col rs idx :
  map fst col = idx -> map fst rs = idx -> map fst (add_column col rs) = idx.
Proof. intros Hc Hr. rewrite add_column_index; congruence. Qed.

Create HintDb frame.
#[local] Hint Resolve add_column_on : frame.
#[local] Hint Extern 1 (map fst (map _ _) = _) =>
  (apply day_column_index || apply new_frame_index) : frame.
#[local] Hint Extern 1 (map fst (float_column _) = _) =>
  rewrite float_column_index : frame.
#[local] Hint Resolve volume_change_ratio_index momentum_5_day_index
  intraday_chg_index open_1_index close_1_index close_5_index : frame.

Ltac same_index P :=
  transitivity (map p_key P); [|symmetry]; auto 10 with frame.

Lemma features_raw_rows fm P :
  rows (features_raw fm P) =
  add_column (day_of_month (map p_key P))
    (add_column (day_of_week (map p_key P))
       (add_column (float_column (intraday_chg P))
          (add_column (float_column (momentum_5_day fm P))
             (add_column (float_column (volume_change_ratio P))
                (map (fun k => (k, [])) (map p_key P)))))).
Proof.
  unfold features_raw, assign, index. cbn [rows new_frame].
  set (r3 := add_column (float_column (intraday_chg P)) _).
  assert (H3 : map fst r3 = map p_key P) by (unfold r3; auto 10 with frame).
  rewrite H3.
  assert (H4 : map fst (add_column (day_of_week (map p_key P)) r3) = map p_key P)
    by (unfold day_of_week; auto with frame).
  now rewrite H4.
Qed.

Lemma features_raw_index fm P : index (features_raw fm P) = map p_key P.
Proof.
  unfold index. rewrite features_raw_rows.
  unfold day_of_month, day_of_week. auto 10 with frame.
Qed.

Lemma outcomes_index fm P : index (outcomes fm P) = map p_key P.
Proof.
  unfold index, outcomes, assign. cbn [rows new_frame]. auto 10 with frame.
Qed.

(** The raw features of a restricted price table are the restricted raw
    features, as soon as the five grouped columns commute with the
    restriction. *)
Lemma features_raw_restrict fm p P :
  commutes p P (diff 1) volume ->
  commutes p P (shift 1) volume ->
  commutes p P (pct_change fm 5) close ->
  commutes p P (shift 0) close ->
  commutes p P (shift 0) open ->
  restrict p (rows (features_raw fm P)) = rows (features_raw fm (restrict_prices p P)).
Proof.
  unfold commutes. intros Hd Hs Hm Hc Ho.
  rewrite !features_raw_rows, restrict_prices_keys.
  unfold day_of_month, day_of_week.
  rewrite !restrict_add_column by same_index P.
  rewrite !restrict_index_map.
  unfold float_column. rewrite !restrict_map.
  unfold intraday_chg, volume_change_ratio, momentum_5_day, series_div, series_sub.
  rewrite !restrict_series_op
    by (rewrite ?by_symbol_index; auto; repeat apply series_op_on; apply by_symbol_index).
  now rewrite Hd, Hs, Hm, Hc, Ho.
Qed.

Lemma outcomes_restrict fm p P :
  commutes p P (shift (-1)) open ->
  commutes p P (shift 0) close ->
  commutes p P (pct_change fm (-1)) close ->
  commutes p P (pct_change fm (-5)) close ->
  restrict p (rows (outcomes fm P)) = rows (outcomes fm (restrict_prices p P)).
Proof.
  unfold commutes. intros Ho Hc H1 H5.
  unfold outcomes, assign. cbn [rows new_frame]. rewrite restrict_prices_keys.
  rewrite !restrict_add_column by same_index P.
  rewrite !restrict_index_map.
  unfold float_column. rewrite !restrict_map.
  unfold open_1, close_1, close_5, series_sub_scalar, series_div.
  rewrite (restrict_map (fun v => F64.sub v F64.one)).
  rewrite !restrict_series_op by now rewrite !by_symbol_index.
  now rewrite Ho, Hc, H1, H5.
Qed.

Lemma features_restrict fm p P :
  restrict p (rows (features_raw fm P)) = rows (features_raw fm (restrict_prices p P)) ->
  restrict p (rows (features fm P)) = rows (features fm (restrict_prices p P)).
Proof.
  intros H. unfold features, dropna. cbn [rows].
  now rewrite restrict_complete, H.
Qed.

(** ** Binary64 arithmetic and the NaN *)

Section NotNan.

Variables prec emax : Z.

Lemma shr_1_nonneg mrs : (0 <= shr_m mrs)%Z -> (0 <= shr_m (shr_1 mrs))%Z.
Proof.
  destruct mrs as [m r s]. simpl. destruct m as [|p|p]; simpl; try lia.
  destruct p; simpl; lia.
Qed.

Lemma iter_pos_nonneg n mrs :
  (0 <= shr_m mrs)%Z -> (0 <= shr_m (iter_pos shr_1 n mrs))%Z.
Proof.
  revert mrs. induction n as [n IH|n IH|]; simpl; intros mrs H.
  - apply IH, IH, shr_1_nonneg, H.
  - apply IH, IH, H.
  - apply shr_1_nonneg, H.
Qed.

Lemma shr_fexp_nonneg m e l :
  (0 <= m)%Z -> (0 <= shr_m (fst (shr_fexp prec emax m e l)))%Z.
Proof.
  intros H. unfold shr_fexp, shr.
  assert (H0 : (0 <= shr_m (shr_record_of_loc m l))%Z).
  { destruct l as [|[]]; simpl; exact H. }
  destruct (fexp prec emax (Zdigits2 m + e) - e)%Z; simpl; auto.
  now apply iter_pos_nonneg.
Qed.

Lemma round_nearest_even_nonneg m l :
  (0 <= m)%Z -> (0 <= round_nearest_even m l)%Z.
Proof.
  intros H. unfold round_nearest_even. destruct l as [|[]]; try lia.
  destruct (Z.even m); lia.
Qed.

(** Rounding a non-negative mantissa gives a zero, a finite number or an
    infinity. *)
Lemma binary_round_aux_not_nan sx mx ex lx :
  (0 <= mx)%Z -> binary_round_aux prec emax sx mx ex lx <> S754_nan.
Proof.
  intros H. unfold binary_round_aux.
  pose proof (shr_fexp_nonneg mx ex lx H) as H1.
  destruct (shr_fexp prec emax mx ex lx) as [mrs' e']. simpl in H1.
  pose proof (shr_fexp_nonneg _ e' loc_Exact
                (round_nearest_even_nonneg _ (loc_of_shr_record mrs') H1)) as H2.
  destruct (shr_fexp prec emax _ e' loc_Exact) as [mrs'' e'']. simpl in H2.
  destruct (shr_m mrs''); try discriminate; try lia.
  destruct (e'' <=? emax - prec)%Z; discriminate.
Qed.

Lemma binary_normalize_not_nan m e sz :
  binary_normalize prec emax m e sz <> S754_nan.
Proof.
  unfold binary_normalize, binary_round.
  destruct m; try discriminate;
    destruct (shl_align _ _ _); apply binary_round_aux_not_nan; lia.
Qed.

Lemma SFdiv_core_nonneg m1 e1 m2 e2 :
  (0 <= fst (fst (SFdiv_core_binary prec emax (Zpos m1) e1 (Zpos m2) e2)))%Z.
Proof.
  unfold SFdiv_core_binary.
  set (s := (_ - _ - _)%Z).
  set (m' := match s with Z0 => _ | Zpos _ => _ | Zneg _ => _ end).
  assert (Hm : (0 <= m')%Z).
  { unfold m'. destruct s; try lia. apply Z.shiftl_nonneg. lia. }
  pose proof (Z.div_pos m' (Zpos m2) Hm ltac:(lia)) as Hq.
  unfold Z.div in Hq. destruct (Z.div_eucl m' (Zpos m2)) as [q r]. exact Hq.
Qed.

End NotNan.

Lemma div_nan_r x : F64.div x nan = nan.
Proof. now destruct x. Qed.

Lemma sub_nan_l y : F64.sub nan y = nan.
Proof. reflexivity. Qed.

Lemma sub_nan_r x : F64.sub x nan = nan.
Proof. now destruct x. Qed.

Lemma div_nan_l y : F64.div nan y = nan.
Proof. reflexivity. Qed.

(** Dividing a present value by a finite non-zero value never gives NaN. *)
Lemma div_present x y :
  F64.isnan x = false -> F64.proper y = true -> F64.isnan (F64.div x y) = false.
Proof.
  destruct x as [sx|sx| |sx mx ex], y as [sy|sy| |sy my ey]; simpl;
    try discriminate; try reflexivity.
  intros _ _. unfold F64.div, SFdiv.
  pose proof (SFdiv_core_nonneg F64.prec F64.emax mx ex my ey) as Hq.
  destruct (SFdiv_core_binary F64.prec F64.emax (Z.pos mx) ex (Z.pos my) ey)
    as [[mz ez] lz]. simpl in Hq.
  pose proof (binary_round_aux_not_nan F64.prec F64.emax (xorb sx sy) mz ez lz Hq) as Hn.
  destruct (binary_round_aux F64.prec F64.emax (xorb sx sy) mz ez lz);
    try reflexivity. now elim Hn.
Qed.

(** Subtracting a finite non-zero value from a present value never gives
    NaN. *)
Lemma sub_present x y :
  F64.isnan x = false -> F64.proper y = true -> F64.isnan (F64.sub x y) = false.
Proof.
  destruct x as [sx|sx| |sx mx ex], y as [sy|sy| |sy my ey]; simpl;
    try discriminate; try reflexivity.
  intros _ _. unfold F64.sub, SFsub.
  match goal with |- F64.isnan (binary_normalize ?p ?e ?m ?z ?s) = false =>
    pose proof (binary_normalize_not_nan p e m z s) as Hn;
    destruct (binary_normalize p e m z s); try reflexivity; now elim Hn
  end.
Qed.

Lemma proper_present x : F64.proper x = true -> F64.isnan x = false.
Proof. now destruct x. Qed.

Lemma one_proper : F64.proper F64.one = true.
Proof. reflexivity. Qed.

(** ** The grouped columns under the three restrictions *)

Lemma commutes_symbol s P f c :
  (forall l, length (f l) = length l) -> commutes (of_symbol s) P f c.
Proof.
  intros Hl. unfold commutes, by_symbol. rewrite column_restrict.
  now apply groupby_restrict_symbol.
Qed.

Lemma commutes_until d s P f c :
  (forall l, length (f l) = length l) ->
  (forall n l, f (firstn n l) = firstn n (f l)) ->
  sorted_index P -> commutes (until d s) P f c.
Proof.
  intros Hl Hf Hs. unfold commutes, by_symbol. rewrite column_restrict.
  apply groupby_restrict_until; auto. now rewrite column_index.
Qed.

Lemma commutes_from d s P f c :
  (forall l, length (f l) = length l) ->
  (forall n l, head_present (map c (restrict_prices (from d s) P)) = true ->
               map c (restrict_prices (from d s) P) = skipn n l ->
               f (skipn n l) = skipn n (f l)) ->
  head_present (map c (restrict_prices (from d s) P)) = true ->
  sorted_index P -> commutes (from d s) P f c.
Proof.
  intros Hl Hf Hh Hs. unfold commutes, by_symbol. rewrite column_restrict.
  apply groupby_restrict_from; auto.
  - intros n Hn. apply Hf; auto.
    rewrite <- Hn, <- column_restrict. unfold column. rewrite map_map. reflexivity.
  - now rewrite column_index.
Qed.

Lemma restrict_restrict {A} p q (l : list (index_key * A)) :
  (forall k, p k = true -> q k = true) ->
  restrict p (restrict q l) = restrict p l.
Proof.
  intros H. unfold restrict. induction l as [|x l IH]; simpl; auto.
  destruct (q (fst x)) eqn:Hq; simpl.
  - destruct (p (fst x)); now rewrite IH.
  - destruct (p (fst x)) eqn:Hp; auto. apply H in Hp. congruence.
Qed.

Lemma at_key_eq k0 k : at_key k0 k = true -> k = k0.
Proof.
  unfold at_key, key_eqb. intros H. apply andb_true_iff in H as [Hd Hs].
  apply Z.eqb_eq in Hd. apply String.eqb_eq in Hs.
  destruct k, k0; simpl in *; congruence.
Qed.

Lemma at_key_until d s k : at_key (d, s) k = true -> until d s k = true.
Proof.
  intros H. apply at_key_eq in H. subst k. unfold until. simpl.
  now rewrite String.eqb_refl, Z.leb_refl.
Qed.

Lemma at_key_from d s k : at_key (d, s) k = true -> from d s k = true.
Proof.
  intros H. apply at_key_eq in H. subst k. unfold from. simpl.
  now rewrite String.eqb_refl, Z.leb_refl.
Qed.

(** The features of a symbol are computed from the rows of that symbol. *)
Lemma features_of_symbol fm s P :
  restrict (of_symbol s) (rows (features fm P)) =
  rows (features fm (restrict_prices (of_symbol s) P)).
Proof.
  apply features_restrict, features_raw_restrict;
    apply commutes_symbol;
    auto using shift_length, diff_length, pct_change_length.
Qed.

Lemma features_raw_of_symbol fm s P :
  restrict (of_symbol s) (rows (features_raw fm P)) =
  rows (features_raw fm (restrict_prices (of_symbol s) P)).
Proof.
  apply features_raw_restrict;
    apply commutes_symbol;
    auto using shift_length, diff_length, pct_change_length.
Qed.

Lemma outcomes_of_symbol fm s P :
  restrict (of_symbol s) (rows (outcomes fm P)) =
  rows (outcomes fm (restrict_prices (of_symbol s) P)).
Proof.
  apply outcomes_restrict;
    apply commutes_symbol;
    auto using shift_length, diff_length, pct_change_length.
Qed.

(** The features of a symbol up to a date are computed from the rows of
    that symbol up to that date. *)
Lemma features_until fm d s P :
  sorted_index P ->
  restrict (until d s) (rows (features fm P)) =
  rows (features fm (restrict_prices (until d s) P)).
Proof.
  intros Hs.
  apply features_restrict, features_raw_restrict;
    apply commutes_until;
    auto using shift_length, diff_length, pct_change_length;
    intros; (apply shift_firstn || apply diff_firstn || apply pct_change_firstn); lia.
Qed.

(** The outcomes of a symbol from a date on are computed from the rows of
    that symbol from that date on, when the first of them has a close. *)
Lemma outcomes_from fm d s P :
  sorted_index P ->
  head_present (map close (restrict_prices (from d s) P)) = true ->
  restrict (from d s) (rows (outcomes fm P)) =
  rows (outcomes fm (restrict_prices (from d s) P)).
Proof.
  intros Hs Hh. apply outcomes_restrict.
  - (* open.shift(-1): the rows after need no present value *)
    unfold commutes, by_symbol. rewrite column_restrict.
    apply groupby_restrict_from; auto using shift_length.
    + intros n _. apply shift_skipn. lia.
    + now rewrite column_index.
  - apply commutes_from; auto using shift_length.
    intros n l _ _. apply shift_skipn. lia.
  - apply commutes_from; auto using pct_change_length.
    intros n l H1 H2. apply pct_change_skipn; [lia|]. now rewrite <- H2.
  - apply commutes_from; auto using pct_change_length.
    intros n l H1 H2. apply pct_change_skipn; [lia|]. now rewrite <- H2.
Qed.

(** ** Rows of the frames *)

Lemma In_zip_with {A B C} (g : A -> B -> C) a b z :
  In z (zip_with g a b) -> exists x y, In x a /\ In y b /\ z = g x y.
Proof.
  revert b. induction a as [|x a IH]; intros [|y b]; simpl; try tauto.
  intros [H|H].
  - exists x, y. auto.
  - apply IH in H as (x' & y' & Hx & Hy & Hz). exists x', y'. auto.
Qed.

Lemma In_add_column col rs r :
  In r (add_column col rs) ->
  exists r0 c, In r0 rs /\ In c col /\ r = (fst r0, snd r0 ++ [snd c]).
Proof. unfold add_column. apply In_zip_with. Qed.

Lemma features_columns fm P :
  columns (features fm P) =
  ["volume_change_ratio"; "momentum_5_day"; "intraday_chg";
   "day_of_week"; "day_of_month"]%string.
Proof. reflexivity. Qed.

Lemma features_columns_distinct fm P : NoDup (columns (features fm P)).
Proof.
  rewrite features_columns. repeat constructor; simpl; intuition discriminate.
Qed.

(** Every row of the features frame has its five cells. *)
Lemma features_raw_row_length fm P r :
  In r (rows (features_raw fm P)) -> length (snd r) = 5.
Proof.
  rewrite features_raw_rows. intros H.
  repeat (apply In_add_column in H as (? & ? & H & _ & ->)).
  apply in_map_iff in H as (k & <- & _). reflexivity.
Qed.

Lemma features_row_length fm P r :
  In r (rows (features fm P)) -> length (snd r) = 5.
Proof.
  unfold features, dropna. cbn [rows]. intros H. apply filter_In in H as [H _].
  now apply features_raw_row_length in H.
Qed.

Lemma In_left_join_rows X y r :
  In r (left_join_rows X y) ->
  exists r0 c, In r0 X /\ r = (fst r0, snd r0 ++ [c]).
Proof.
  unfold left_join_rows. intros H. apply in_flat_map in H as (r0 & H0 & H).
  destruct (matches (fst r0) y) as [|m ms].
  - destruct H as [<-|[]]. eauto.
  - apply in_map_iff in H as (e & <- & _). eauto.
Qed.

Lemma position_skip n pre rest :
  ~ In n pre -> position n (pre ++ n :: rest) = Some (length pre).
Proof.
  induction pre as [|c pre IH]; intros Hn; cbn [app position length].
  - now rewrite String.eqb_refl.
  - destruct (String.eqb_spec c n) as [->|_].
    + exfalso. apply Hn. now left.
    + rewrite IH; [reflexivity|]. intros H. apply Hn. now right.
Qed.

Lemma all_positions_none n cols : ~ In n cols -> all_positions n cols = [].
Proof.
  induction cols as [|c cols IH]; intros Hn; [reflexivity|]. cbn [all_positions].
  destruct (String.eqb_spec c n) as [->|_].
  - exfalso. apply Hn. now left.
  - rewrite IH; [reflexivity|]. intros H. apply Hn. now right.
Qed.

Lemma all_positions_skip n pre rest :
  ~ In n pre -> ~ In n rest -> all_positions n (pre ++ n :: rest) = [length pre].
Proof.
  induction pre as [|c pre IH]; intros Hn Hr; cbn [app all_positions length].
  - now rewrite String.eqb_refl, all_positions_none.
  - destruct (String.eqb_spec c n) as [->|_].
    + exfalso. apply Hn. now left.
    + rewrite IH; [reflexivity| |assumption]. intros H. apply Hn. now right.
Qed.

Lemma positions_self pre cols extra :
  NoDup (pre ++ cols ++ extra) ->
  positions cols (pre ++ cols ++ extra)
  = Ok (combine cols (seq (length pre) (length cols))).
Proof.
  revert pre. induction cols as [|c cols IH]; intros pre Hnd; [reflexivity|].
  cbn [positions app]. rewrite all_positions_skip.
  - change (pre ++ c :: cols ++ extra) with (pre ++ [c] ++ cols ++ extra).
    rewrite app_assoc, IH.
    + rewrite length_app. cbn [length bind seq map app combine].
      now rewrite Nat.add_1_r.
    + now rewrite <- app_assoc.
  - apply NoDup_remove_2 in Hnd. intros H. apply Hnd. apply in_or_app. now left.
  - apply NoDup_remove_2 in Hnd. intros H. apply Hnd. apply in_or_app. now right.
Qed.

Lemma map_nth_seq {A} (l l' : list A) d :
  map (fun p => nth p (l ++ l') d) (seq 0 (length l)) = l.
Proof.
  apply (nth_ext _ _ d d); [now rewrite length_map, length_seq|].
  intros i Hi. rewrite length_map, length_seq in Hi.
  rewrite (nth_indep _ d (nth 0 (l ++ l') d)) by now rewrite length_map, length_seq.
  change (nth 0 (l ++ l') d) with ((fun p => nth p (l ++ l') d) 0).
  rewrite map_nth, seq_nth by assumption. now rewrite app_nth1.
Qed.

Lemma existsb_eqb_In name cols :
  existsb (String.eqb name) cols = false -> ~ In name cols.
Proof.
  intros H Hin. apply Bool.not_true_iff_false in H. apply H.
  apply existsb_exists. exists name. split; [assumption|apply String.eqb_refl].
Qed.

Lemma NoDup_snoc {A} (l : list A) a : NoDup l -> ~ In a l -> NoDup (l ++ [a]).
Proof.
  intros Hl Ha. apply NoDup_app; [assumption|repeat constructor; simpl; tauto|].
  intros x Hx [<-|[]]. contradiction.
Qed.

Lemma map_snd_combine {A B C} (f : B -> C) (a : list A) (b : list B) :
  length a = length b -> map (fun p => f (snd p)) (combine a b) = map f b.
Proof.
  revert b. induction a as [|x a IH]; intros [|y b] H; try discriminate; [reflexivity|].
  simpl. f_equal. apply IH. now injection H.
Qed.

(** [Xy[X.columns]] on the joined frame, when the labels are distinct:
    the cells of the columns of [X], row by row. *)
Lemma getitem_columns_joined cols name (rs : list (index_key * list cell)) :
  NoDup cols -> ~ In name cols ->
  getitem_columns (mkFrame (cols ++ [name]) rs) cols
  = Ok (mkFrame cols
          (map (fun r => (fst r, map (fun p => nth p (snd r) (CFloat nan))
                                     (seq 0 (length cols)))) rs)).
Proof.
  intros Hnd Hn. unfold getitem_columns. cbn [columns rows].
  pose proof (positions_self [] cols [name]) as Hp. cbn [app length] in Hp.
  rewrite Hp by now apply NoDup_snoc. cbn [bind]. f_equal. f_equal.
  - apply combine_map_fst. now rewrite length_seq.
  - apply map_ext. intros r. f_equal.
    apply (map_snd_combine (fun p => nth p (snd r) (CFloat nan))).
    now rewrite length_seq.
Qed.

Lemma complete_app k cs c :
  complete (k, cs ++ [c]) = true -> complete (k, cs) = true /\ isna c = false.
Proof.
  unfold complete. cbn [snd]. rewrite forallb_app. cbn [forallb].
  rewrite !andb_true_iff, negb_true_iff. tauto.
Qed.

(** The rows that the join and [dropna] keep: a row of [X] with one more
    cell, none of them missing. *)
Lemma kept_rows (X : list (index_key * list cell)) (y : Column) r :
  In r (filter complete (left_join_rows X y)) ->
  exists r0 c, In r0 X /\ r = (fst r0, snd r0 ++ [c])
               /\ complete r0 = true /\ isna c = false.
Proof.
  intros Hr. apply filter_In in Hr as [Hr Hc].
  apply In_left_join_rows in Hr as (r0 & c & Hr0 & ->).
  apply complete_app in Hc as [Hc1 Hc2]. exists r0, c.
  destruct r0; auto.
Qed.

(** The training pair of a features frame with distinct column labels, in
    terms of the rows kept. *)
Lemma training_pair_explicit (F O : DataFrame) (name : string)
      (X : DataFrame) (y : Column) :
  NoDup (columns F) ->
  training_pair F O name = Ok (X, y) ->
  exists y0,
    getattr O name = Ok y0
    /\ ~ In name (columns F)
    /\ X = mkFrame (columns F)
              (map (fun r => (fst r, map (fun p => nth p (snd r) (CFloat nan))
                                         (seq 0 (length (columns F)))))
                   (filter complete (left_join_rows (rows F) y0)))
    /\ y = map (fun r => (fst r, nth (length (columns F)) (snd r) (CFloat nan)))
              (filter complete (left_join_rows (rows F) y0)).
Proof.
  intros Hnd H. unfold training_pair in H.
  destruct (getattr O name) as [y0|]; [|discriminate].
  cbn [bind] in H. unfold join in H.
  destruct (existsb (String.eqb name) (columns F)) eqn:Hnew; [discriminate|].
  apply existsb_eqb_In in Hnew.
  cbn [bind] in H. unfold getitem, dropna in H. cbn [columns rows] in H.
  rewrite (position_skip name (columns F) [] Hnew) in H. cbn [bind] in H.
  rewrite getitem_columns_joined in H by assumption. cbn [bind] in H.
  injection H as <- <-. exists y0. auto.
Qed.

(** The rows of the training matrix are rows of the features frame. *)
Lemma training_matrix_rows fm name P X r :
  training_matrix fm name P = Ok X -> In r (rows X) -> In r (rows (features fm P)).
Proof.
  unfold training_matrix, training_pair. intros H Hr.
  destruct (getattr (outcomes fm P) name) as [y|]; [|discriminate].
  cbn [bind] in H. unfold join in H.
  destruct (existsb _ _) eqn:Hnew; [discriminate|]. cbn [bind] in H.
  apply existsb_eqb_In in Hnew.
  destruct (getitem _ name) as [y'|]; [|discriminate]. cbn [bind] in H.
  unfold dropna in H. cbn [columns rows] in H.
  rewrite getitem_columns_joined in H; [|apply features_columns_distinct|assumption].
  cbn [bind fst] in H. injection H as <-. cbn [rows fst] in Hr.
  apply in_map_iff in Hr as (r1 & <- & Hr1).
  apply filter_In in Hr1 as [Hr1 _].
  apply In_left_join_rows in Hr1 as (r0 & c & Hr0 & ->).
  pose proof (features_row_length fm P r0 Hr0) as Hlen.
  destruct r0 as [k cs]. cbn [fst snd] in *.
  do 5 (destruct cs as [|? cs]; [discriminate|]).
  destruct cs; [|discriminate]. exact Hr0.
Qed.

Lemma sorted_keysb_correct P :
  sorted_keysb (map p_key P) = true -> sorted_index P.
Proof.
  unfold sorted_index. induction (map p_key P) as [|k idx IH]; simpl; intros H.
  - constructor.
  - apply andb_true_iff in H as [Hk H]. constructor; auto.
    rewrite forallb_forall in Hk. apply Forall_forall. exact Hk.
Qed.

Lemma restrict_at_key_until {A} d s (l : list (index_key * A)) :
  restrict (at_key (d, s)) l = restrict (at_key (d, s)) (restrict (until d s) l).
Proof. symmetry. apply restrict_restrict. apply at_key_until. Qed.

Lemma restrict_at_key_from {A} d s (l : list (index_key * A)) :
  restrict (at_key (d, s)) l = restrict (at_key (d, s)) (restrict (from d s) l).
Proof. symmetry. apply restrict_restrict. apply at_key_from. Qed.

(** * The claims *)

(** ** Per-symbol noninterference *)

(** C9. The derived tables group the prices by symbol: when two price
    tables have the same rows for symbol [s] (and any rows at all for the
    other symbols), the rows of [s] in the features table are the same, and
    so are the rows of [s] in the outcomes table.  No [diff], [shift] or
    [pct_change] carries a value from one symbol to another. *)
Theorem derived_tables_per_symbol (fm : fill_method) (P1 P2 : list price_row) (s : symbol) :
  restrict_prices (of_symbol s) P1 = restrict_prices (of_symbol s) P2 ->
  restrict (of_symbol s) (rows (features fm P1))
    = restrict (of_symbol s) (rows (features fm P2))
  /\ restrict (of_symbol s) (rows (outcomes fm P1))
     = restrict (of_symbol s) (rows (outcomes fm P2)).
Proof.
  intros H. rewrite !features_of_symbol, !outcomes_of_symbol, H. auto.
Qed.

Lemma derived_tables_per_symbol_witness :
  restrict (of_symbol "A"%string) (rows (features Pad example_prices))
    = restrict (of_symbol "A"%string) (rows (features Pad example_prices_other_changed))
  /\ restrict (of_symbol "A"%string) (rows (outcomes Pad example_prices))
     = restrict (of_symbol "A"%string) (rows (outcomes Pad example_prices_other_changed)).
Proof.
  apply (derived_tables_per_symbol Pad example_prices example_prices_other_changed "A"%string).
  vm_compute. reflexivity.
Defined.

(** ** Lookahead safety of the features *)

(** C1. Take a row retained in the training matrix, of label (d, s).  Its
    five feature values are computed from the price rows of [s] dated at or
    before [d] only: a price table with the same such rows, whatever its
    later rows and its other symbols, has the same feature rows under the
    label (d, s), and the retained row is one of them. *)
Theorem features_lookahead_safe (fm : fill_method) (name : string)
        (P1 P2 : list price_row) (X1 : DataFrame) (d : date) (s : symbol) :
  sorted_index P1 -> sorted_index P2 ->
  restrict_prices (until d s) P1 = restrict_prices (until d s) P2 ->
  training_matrix fm name P1 = Ok X1 ->
  restrict (at_key (d, s)) (rows (features fm P1))
    = restrict (at_key (d, s)) (rows (features fm P2))
  /\ forall r, In r (rows X1) -> fst r = (d, s) ->
               In r (restrict (at_key (d, s)) (rows (features fm P2))).
Proof.
  intros Hs1 Hs2 Hh HX.
  assert (Heq : restrict (at_key (d, s)) (rows (features fm P1))
                = restrict (at_key (d, s)) (rows (features fm P2))).
  { rewrite (restrict_at_key_until d s (rows (features fm P1))).
    rewrite (restrict_at_key_until d s (rows (features fm P2))).
    now rewrite !features_until, Hh by assumption. }
  split; [exact Heq|].
  intros r Hr Hk. rewrite <- Heq. apply restrict_In. split.
  - eapply training_matrix_rows; eauto.
  - rewrite Hk. unfold at_key, key_eqb. simpl.
    now rewrite Z.eqb_refl, String.eqb_refl.
Qed.

Lemma features_lookahead_safe_witness :
  restrict (at_key (17005%Z, "A"%string)) (rows (features Pad example_prices))
    = restrict (at_key (17005%Z, "A"%string))
               (rows (features Pad example_prices_later_changed))
  /\ forall r,
       In r (rows (mkFrame (columns (features Pad example_prices))
                           (firstn 4 (rows (features Pad example_prices))))) ->
       fst r = (17005%Z, "A"%string) ->
       In r (restrict (at_key (17005%Z, "A"%string))
                      (rows (features Pad example_prices_later_changed))).
Proof.
  apply (features_lookahead_safe Pad "close_1"%string
           example_prices example_prices_later_changed).
  - apply sorted_keysb_correct. vm_compute. reflexivity.
  - apply sorted_keysb_correct. vm_compute. reflexivity.
  - vm_compute. reflexivity.
  - vm_compute. reflexivity.
Defined.

(** ** What the outcomes are computed from *)

Lemma sorted_restrict_prices p P :
  sorted_index P -> sorted_index (restrict_prices p P).
Proof.
  unfold sorted_index. rewrite restrict_prices_keys. apply StronglySorted_filter.
Qed.

Lemma restrict_prices_In p P r :
  In r (restrict_prices p P) <-> In r P /\ p (p_key r) = true.
Proof. unfold restrict_prices. apply filter_In. Qed.

(** In a sorted table with a row labelled (d, s), the rows of [s] from [d]
    on start with such a row. *)
Lemma head_of_from d s P :
  sorted_index P ->
  (forall r, In r P -> p_key r = (d, s) -> F64.isnan (close r) = false) ->
  (exists r, In r P /\ p_key r = (d, s)) ->
  head_present (map close (restrict_prices (from d s) P)) = true.
Proof.
  intros Hs Hc (r & Hr & Hk).
  pose proof (sorted_restrict_prices (from d s) P Hs) as HF.
  assert (HrF : In r (restrict_prices (from d s) P)).
  { apply restrict_prices_In. split; auto. rewrite Hk. now apply at_key_from,
      andb_true_iff; split; [apply Z.eqb_refl|apply String.eqb_refl]. }
  assert (Hsub : forall x, In x (restrict_prices (from d s) P) ->
                           In x P /\ from d s (p_key x) = true).
  { intros x. apply restrict_prices_In. }
  destruct (restrict_prices (from d s) P) as [|h F]; [reflexivity|].
  simpl. apply negb_true_iff. apply Hc; [apply Hsub; now left|].
  destruct (Hsub h (or_introl eq_refl)) as [_ Hh].
  unfold from in Hh. apply andb_true_iff in Hh as [Hsym Hd].
  apply String.eqb_eq in Hsym. apply Z.leb_le in Hd.
  unfold sorted_index in HF. simpl in HF. apply StronglySorted_inv in HF as [_ HF].
  assert (Hle : (p_date h <= d)%Z).
  { assert (Hrd : p_date r = d) by exact (f_equal fst Hk).
    destruct HrF as [Heq|HrF].
    - rewrite Heq, Hrd. lia.
    - rewrite Forall_forall in HF.
      assert (Hkl := HF (p_key r) (in_map p_key _ _ HrF)).
      apply key_leb_date in Hkl. rewrite Hk in Hkl. exact Hkl. }
  unfold p_key in *. simpl in *. f_equal; [lia|exact Hsym].
Qed.

Lemma outcomes_at_absent_key fm k P :
  (forall r, In r P -> at_key k (p_key r) = false) ->
  restrict (at_key k) (rows (outcomes fm P)) = [].
Proof.
  intros H. apply restrict_none. intros r Hr.
  assert (Hi : In (fst r) (index (outcomes fm P))) by (unfold index; now apply in_map).
  rewrite outcomes_index in Hi. apply in_map_iff in Hi as (x & <- & Hx). auto.
Qed.

(** C2 as stated fails: with two sessions of one symbol, changing the close
    of the first day only (price data at the date of the row, none after it)
    changes [open_1] of the first day from 1 to 0. *)
Lemma outcome_changes_with_own_close :
  ~ outcome_reads_later_rows_only PadMasked
  /\ ~ outcome_reads_later_rows_only Pad
  /\ ~ outcome_reads_later_rows_only NoFill.
Proof.
  repeat split; intros H;
    match type of H with outcome_reads_later_rows_only ?fm =>
      specialize (H two_sessions two_sessions_close_changed 1%Z "A"%string
                    (nth 0 (rows (outcomes fm two_sessions)) ((0%Z, ""%string), []))
                    (nth 0 (rows (outcomes fm two_sessions_close_changed))
                         ((0%Z, ""%string), []))
                    0)
    end;
    (assert (Hs1 : sorted_index two_sessions)
       by (apply sorted_keysb_correct; reflexivity));
    (assert (Hs2 : sorted_index two_sessions_close_changed)
       by (apply sorted_keysb_correct; reflexivity));
    specialize (H Hs1 Hs2 eq_refl);
    vm_compute in H;
    specialize (H (or_introl eq_refl) (or_introl eq_refl) eq_refl eq_refl);
    discriminate H.
Qed.

(** ** The training pair *)

Lemma complete_missing k cells :
  complete (k, cells ++ [CFloat nan]) = false.
Proof.
  unfold complete. simpl. rewrite forallb_app. simpl. apply andb_false_r.
Qed.

Lemma dropna_left_inner X y :
  filter complete (left_join_rows X y) = filter complete (inner_join_rows X y).
Proof.
  unfold left_join_rows, inner_join_rows.
  induction X as [|r X IH]; [reflexivity|].
  cbn [flat_map]. rewrite !filter_app, IH. f_equal.
  destruct (matches (fst r) y) as [|m ms]; [|reflexivity].
  cbn [map filter]. now rewrite complete_missing.
Qed.

(** C3. The training pair the notebook builds (left join of [y] onto [X],
    [dropna], split) is the training pair of the specification (inner join
    on the index, rows with a missing value dropped, split), for all
    features and outcomes frames and every outcome column: the same pair,
    or the same error. *)
Theorem training_pair_refines_spec (features outcomes : DataFrame) (name : string) :
  training_pair features outcomes name = spec_training_pair features outcomes name.
Proof.
  unfold training_pair, spec_training_pair.
  destruct (getattr outcomes name) as [y|e]; [|reflexivity].
  cbn [bind]. unfold join.
  destruct (existsb (String.eqb name) (columns features)); [reflexivity|].
  cbn [bind]. unfold dropna. cbn [columns rows].
  now rewrite dropna_left_inner.
Qed.

(** ** Prediction *)

(** C8. When the model predicts one value per row of [X], as a regression
    model does, [pd.Series(model.predict(X), index=X.index)] is a series
    with the labels of [X], in the order of [X], and as many entries as [X]
    has rows. *)
Theorem prediction_has_index_of_X (predict : list (list cell) -> list float)
        (X : DataFrame) :
  (forall M, length (predict M) = length M) ->
  exists s, prediction predict X = Ok s
            /\ map fst s = index X
            /\ length s = length (rows X).
Proof.
  intros Hp. unfold prediction, series_of_array, index.
  assert (Hl : length (predict (map snd (rows X))) = length (map fst (rows X))).
  { now rewrite Hp, !length_map. }
  rewrite Hl, Nat.eqb_refl. eexists. split; [reflexivity|]. split.
  - apply combine_map_fst. now rewrite Hl.
  - rewrite length_combine, Hl, length_map. lia.
Qed.

Lemma prediction_has_index_of_X_witness :
  exists s, prediction (map (fun row => nth 2 (map (fun c => match c with
                                                   | CFloat x => x
                                                   | CInt z => F64.of_Z z
                                                   end) row) nan))
                       (features Pad example_prices) = Ok s
            /\ map fst s = index (features Pad example_prices)
            /\ length s = length (rows (features Pad example_prices)).
Proof.
  apply (prediction_has_index_of_X
           (map (fun row => nth 2 (map (fun c => match c with
                                           | CFloat x => x
                                           | CInt z => F64.of_Z z
                                           end) row) nan))
           (features Pad example_prices)).
  intros M. apply length_map.
Defined.

(** ** Retrieval *)

Lemma string_leb_iff a b :
  String.leb a b = true <-> String_as_OT.lt a b \/ a = b.
Proof.
  unfold String.leb. split.
  - destruct (String.compare a b) eqn:Hc; intros H; try discriminate.
    + right. now apply String.compare_eq_iff.
    + left. now apply String_as_OT.cmp_lt.
  - intros [H| ->].
    + apply String_as_OT.cmp_lt in H. unfold String_as_OT.cmp in H. now rewrite H.
    + assert (H : String.compare b b = Eq) by now apply String_as_OT.cmp_eq.
      now rewrite H.
Qed.

Lemma string_leb_trans a b c :
  String.leb a b = true -> String.leb b c = true -> String.leb a c = true.
Proof.
  rewrite !string_leb_iff. intros [H1|H1] [H2|H2]; subst; auto.
  left. eapply String_as_OT.lt_trans; eauto.
Qed.

Lemma key_le_iff a b :
  key_le a b <-> (fst a < fst b)%Z \/ (fst a = fst b /\ String.leb (snd a) (snd b) = true).
Proof.
  unfold key_le, key_leb. rewrite orb_true_iff, andb_true_iff, Z.ltb_lt, Z.eqb_eq.
  reflexivity.
Qed.

#[local] Instance key_le_trans : Transitive key_le.
Proof.
  intros a b c. rewrite !key_le_iff. intros [H1|[H1 S1]] [H2|[H2 S2]];
    try (left; lia). right. split; [lia|]. eapply string_leb_trans; eauto.
Qed.

Lemma key_leb_total a b : key_leb a b = false -> key_leb b a = true.
Proof.
  intros H. apply key_le_iff.
  assert (Hn : ~ key_le a b) by (unfold key_le; congruence).
  rewrite key_le_iff in Hn.
  destruct (Z.lt_trichotomy (fst a) (fst b)) as [Hlt|[Heq|Hgt]]; [tauto| |auto].
  right. split; [lia|].
  destruct (String.leb_total (snd a) (snd b)) as [Hs|Hs]; [tauto|exact Hs].
Qed.

Lemma insert_row_perm r l : Permutation (r :: l) (insert_row r l).
Proof.
  induction l as [|x l IH]; simpl; auto.
  destruct (key_leb (p_key r) (p_key x)); auto.
  rewrite perm_swap. now constructor.
Qed.

Lemma sort_index_perm l : Permutation l (sort_index l).
Proof.
  induction l as [|r l IH]; simpl; auto.
  rewrite <- insert_row_perm. now constructor.
Qed.

Lemma insert_row_sorted r l :
  Sorted key_le (map p_key l) -> Sorted key_le (map p_key (insert_row r l)).
Proof.
  induction l as [|x l IH]; simpl; intros Hs.
  - repeat constructor.
  - destruct (key_leb (p_key r) (p_key x)) eqn:Hk; simpl.
    + constructor; auto.
    + apply Sorted_inv in Hs as [Hs Hx]. constructor; auto.
      apply key_leb_total in Hk.
      destruct l as [|y l]; simpl in *.
      * constructor. exact Hk.
      * destruct (key_leb (p_key r) (p_key y)); constructor; auto.
        now apply HdRel_inv in Hx.
Qed.

Lemma sort_index_sorted l : sorted_index (sort_index l).
Proof.
  unfold sorted_index. apply Sorted_StronglySorted; [exact key_le_trans|].
  induction l as [|r l IH]; simpl; [constructor|]. now apply insert_row_sorted.
Qed.

Lemma fold_left_concat {A B} (f : A -> list B) l acc :
  fold_left (fun out a => out ++ f a) l acc = acc ++ flat_map f l.
Proof.
  revert acc. induction l as [|a l IH]; intros acc; simpl.
  - now rewrite app_nil_r.
  - now rewrite IH, app_assoc.
Qed.

Lemma key_leb_refl k : key_leb k k = true.
Proof.
  apply key_le_iff. right. split; auto. apply string_leb_iff. now right.
Qed.

Lemma filter_insert_row (p : price_row -> bool) r l :
  (forall x, p r = true -> p x = true -> key_leb (p_key r) (p_key x) = true) ->
  filter p (insert_row r l) = filter p (r :: l).
Proof.
  intros H. induction l as [|x l IH]; [reflexivity|].
  cbn [insert_row]. destruct (key_leb (p_key r) (p_key x)) eqn:Hk; [reflexivity|].
  fold (insert_row r l). cbn [filter] in *. rewrite IH.
  destruct (p r) eqn:Hr; [|reflexivity].
  destruct (p x) eqn:Hx; [|reflexivity].
  rewrite H in Hk by auto. discriminate.
Qed.

(** C5. [get_symbols] returns one table with the rows the specification
    describes: for each symbol of the list in turn, the rows of the data
    reader for that symbol with their adjusted open, high, low, close and
    volume, each under its date and the symbol it was fetched for.  The
    table holds these rows, as many times as the concatenation does; its
    (date, symbol) index is in increasing order; rows under the same label
    are in the order of the concatenation; and a row is in the table exactly
    when the data reader returns it for a symbol of the list. *)
Theorem get_symbols_concatenates_and_sorts
        (DataReader : symbol -> string -> option date -> option date -> list reader_row)
        (symbols : list symbol) (data_source : string)
        (begin_date end_date : option date) :
  Permutation (spec_concatenation DataReader symbols data_source begin_date end_date)
              (get_symbols DataReader symbols data_source begin_date end_date)
  /\ sorted_index (get_symbols DataReader symbols data_source begin_date end_date)
  /\ (forall k,
        restrict_prices (at_key k)
          (get_symbols DataReader symbols data_source begin_date end_date)
        = restrict_prices (at_key k)
            (spec_concatenation DataReader symbols data_source begin_date end_date))
  /\ (forall r,
        In r (get_symbols DataReader symbols data_source begin_date end_date) <->
        exists s q,
          In s symbols
          /\ In q (DataReader s data_source begin_date end_date)
          /\ r = mkPrice (Date q) s (AdjOpen q) (AdjHigh q) (AdjLow q)
                         (AdjClose q) (AdjVolume q)).
Proof.
  set (rows := spec_concatenation DataReader symbols data_source begin_date end_date).
  set (prices := get_symbols DataReader symbols data_source begin_date end_date).
  assert (He : prices = sort_index rows).
  { unfold prices, get_symbols. now rewrite fold_left_concat. }
  assert (Hperm : Permutation rows prices) by (rewrite He; apply sort_index_perm).
  split; [exact Hperm|]. split; [rewrite He; apply sort_index_sorted|]. split.
  - intros k. rewrite He. unfold restrict_prices. clear.
    induction rows as [|r l IH]; [reflexivity|].
    cbn [sort_index fold_right]. fold (sort_index l).
    rewrite filter_insert_row.
    + cbn [filter]. now rewrite IH.
    + intros x Hr Hx. apply at_key_eq in Hr, Hx. rewrite Hr, Hx. apply key_leb_refl.
  - intros r. split.
    + intros Hr. apply (Permutation_in _ (Permutation_sym Hperm)) in Hr.
      unfold rows, spec_concatenation in Hr.
      apply in_flat_map in Hr as (s & Hs & Hr).
      apply in_map_iff in Hr as (q & <- & Hq). exists s, q. auto.
    + intros (s & q & Hs & Hq & ->). apply (Permutation_in _ Hperm).
      unfold rows, spec_concatenation. apply in_flat_map. exists s. split; auto.
      apply in_map_iff. exists q. auto.
Qed.

(** ** Running the cells *)

Lemma lookup_app name binds g :
  lookup name (binds ++ g) =
  match lookup name binds with Some l => Some l | None => lookup name g end.
Proof.
  induction binds as [|[n l] binds IH]; simpl; auto.
  destruct (String.eqb n name); auto.
Qed.

Lemma load_old name o l h g news binds :
  lookup name binds = None -> lookup name g = Some l -> nth_error h l = Some o ->
  load name (since h g news binds) = Ok (o, since h g news binds).
Proof.
  intros Hb Hg Hh. unfold load, since. cbn [globals heap].
  rewrite lookup_app, Hb, Hg.
  rewrite nth_error_app1 by (apply nth_error_Some; congruence).
  now rewrite Hh.
Qed.

Lemma load_new name o j h g news binds :
  lookup name binds = Some (length h + j) -> nth_error news j = Some o ->
  load name (since h g news binds) = Ok (o, since h g news binds).
Proof.
  intros Hb Hn. unfold load, since. cbn [globals heap].
  rewrite lookup_app, Hb.
  rewrite nth_error_app2 by lia.
  replace (length h + j - length h) with j by lia. now rewrite Hn.
Qed.

Lemma bind_new_since name o h g news binds :
  bind_new name o (since h g news binds) =
  Ok (tt, since h g (news ++ [o]) ((name, length h + length news) :: binds)).
Proof.
  unfold bind_new, since. cbn [globals heap].
  now rewrite length_app, app_assoc.
Qed.

Lemma bind_alias_since name other l h g news binds :
  lookup other binds = Some l ->
  bind_alias name other (since h g news binds) =
  Ok (tt, since h g news ((name, l) :: binds)).
Proof.
  intros Hb. unfold bind_alias, since. cbn [globals heap].
  now rewrite lookup_app, Hb.
Qed.

Lemma set_nth_app {A} (h news : list A) j a :
  set_nth (length h + j) a (h ++ news) = h ++ set_nth j a news.
Proof. induction h as [|x h IH]; simpl; auto. now rewrite IH. Qed.

Lemma mutate_since name o j h g news binds :
  lookup name binds = Some (length h + j) ->
  mutate name o (since h g news binds) = Ok (tt, since h g (set_nth j o news) binds).
Proof.
  intros Hb. unfold mutate, since. cbn [globals heap].
  now rewrite lookup_app, Hb, set_nth_app.
Qed.

Lemma load_prices_since P l h g news binds :
  lookup "prices" binds = None -> lookup "prices" g = Some l ->
  nth_error h l = Some (PricesObj P) ->
  load_prices "prices" (since h g news binds) = Ok (P, since h g news binds).
Proof.
  intros Hb Hg Hh. unfold load_prices, seq_cmd.
  now rewrite (load_old "prices" (PricesObj P) l).
Qed.

Lemma load_frame_since name df j h g news binds :
  lookup name binds = Some (length h + j) -> nth_error news j = Some (FrameObj df) ->
  load_frame name (since h g news binds) = Ok (df, since h g news binds).
Proof.
  intros Hb Hn. unfold load_frame, seq_cmd.
  now rewrite (load_new name (FrameObj df) j).
Qed.

Lemma load_series_since name n c j h g news binds :
  lookup name binds = Some (length h + j) -> nth_error news j = Some (SeriesObj n c) ->
  load_series name (since h g news binds) = Ok ((n, c), since h g news binds).
Proof.
  intros Hb Hn. unfold load_series, seq_cmd.
  now rewrite (load_new name (SeriesObj n c) j).
Qed.

Lemma setitem_since target label e P df l j h g news binds :
  lookup "prices" binds = None -> lookup "prices" g = Some l ->
  nth_error h l = Some (PricesObj P) ->
  lookup target binds = Some (length h + j) -> nth_error news j = Some (FrameObj df) ->
  setitem target label e (since h g news binds) =
  Ok (tt, since h g (set_nth j (FrameObj (assign df label (e P df))) news) binds).
Proof.
  intros Hb Hg Hh Ht Hn. unfold setitem, seq_cmd.
  rewrite (load_prices_since P l) by assumption.
  rewrite (load_frame_since target df j) by assumption.
  now apply mutate_since.
Qed.

Section RunCells.

Variable fm : fill_method.
Variables (h : list object) (g : list (string * nat)).
Variables (P : list price_row) (l : nat).
Hypothesis prices_bound : lookup "prices" g = Some l.
Hypothesis prices_object : nth_error h l = Some (PricesObj P).

Ltac run_setitem :=
  erewrite (setitem_since _ _ _ P _ l 0)
    by (try reflexivity; try exact prices_bound; try exact prices_object);
  cbn [set_nth].

(** The features cell allocates one frame, binds [features] to it, and
    leaves in it the features of the prices. *)
Lemma run_features_cell :
  features_cell fm (since h g [] []) =
  Ok (tt, since h g [FrameObj (features fm P)] [("features"%string, length h + 0)]).
Proof.
  unfold features_cell. unfold seq_cmd at 1 2 3 4 5 6 7.
  rewrite (load_prices_since P l) by (try reflexivity; assumption).
  rewrite bind_new_since. cbn [app length].
  do 5 run_setitem.
  unfold seq_cmd.
  erewrite (load_frame_since _ _ 0) by reflexivity.
  erewrite (mutate_since _ _ 0) by reflexivity.
  reflexivity.
Qed.

(** The outcomes cell allocates one more frame and binds [outcomes] to
    it. *)
Lemma run_outcomes_cell F :
  outcomes_cell fm (since h g [FrameObj F] [("features"%string, length h + 0)]) =
  Ok (tt, since h g [FrameObj F; FrameObj (outcomes fm P)]
            [("outcomes"%string, length h + 1); ("features"%string, length h + 0)]).
Proof.
  unfold outcomes_cell. unfold seq_cmd at 1 2 3 4.
  rewrite (load_prices_since P l) by (try reflexivity; assumption).
  rewrite bind_new_since. cbn [app length].
  do 2 (erewrite (setitem_since _ _ _ P _ l 1)
         by (try reflexivity; try exact prices_bound; try exact prices_object);
        cbn [set_nth]).
  erewrite (setitem_since _ _ _ P _ l 1)
    by (try reflexivity; try exact prices_bound; try exact prices_object).
  reflexivity.
Qed.

End RunCells.

Lemma kernel_since k : k = since (heap k) (globals k) [] [].
Proof. destruct k as [h g]. unfold since. simpl. now rewrite app_nil_r. Qed.

Section RunAlign.

Variables (h : list object) (g : list (string * nat)).
Variables (F O : DataFrame).

(** The aligning cell computes the training pair of the frames bound to
    [features] and [outcomes], and binds [X] and [y] to it; [features]
    stays bound to its frame. *)
Lemma run_align_cell name X' y' :
  training_pair F O name = Ok (X', y') ->
  exists y Xy,
    align_cell name
      (since h g [FrameObj F; FrameObj O]
             [("outcomes"%string, length h + 1); ("features"%string, length h + 0)]) =
    Ok (tt, since h g
              [FrameObj F; FrameObj O; SeriesObj name y; FrameObj Xy;
               SeriesObj name y'; FrameObj X']
              [("X"%string, length h + 5); ("y"%string, length h + 4);
               ("Xy"%string, length h + 3); ("X"%string, length h + 0);
               ("y"%string, length h + 2);
               ("outcomes"%string, length h + 1); ("features"%string, length h + 0)]).
Proof.
  unfold training_pair. intros H.
  destruct (getattr O name) as [y|] eqn:Hy; [|discriminate]. cbn [bind] in H.
  destruct (join Left F name y) as [Xy|] eqn:HXy; [|discriminate]. cbn [bind] in H.
  destruct (getitem (dropna Xy) name) as [y1|] eqn:Hy1; [|discriminate].
  cbn [bind] in H.
  destruct (getitem_columns (dropna Xy) (columns F)) as [X1|] eqn:HX1; [|discriminate].
  cbn [bind] in H. injection H as -> ->.
  exists y, (dropna Xy).
  unfold align_cell. unfold seq_cmd at 1 2 3 4.
  unfold seq_cmd at 1 2.
  erewrite (load_frame_since _ _ 1) by reflexivity.
  unfold lift at 1. rewrite Hy.
  rewrite bind_new_since. cbn [app length].
  erewrite bind_alias_since by reflexivity.
  unfold seq_cmd at 1 2 3.
  erewrite (load_frame_since _ _ 0) by reflexivity.
  erewrite (load_series_since _ _ _ 2) by reflexivity.
  unfold lift at 1. cbn [fst snd]. rewrite HXy.
  rewrite bind_new_since. cbn [app length].
  unfold seq_cmd at 1 2 3.
  erewrite (load_frame_since _ _ 3) by reflexivity.
  erewrite (load_series_since _ _ _ 2) by reflexivity.
  unfold lift at 1. cbn [fst snd]. rewrite Hy1.
  rewrite bind_new_since. cbn [app length].
  unfold seq_cmd.
  erewrite (load_frame_since _ _ 3) by reflexivity.
  erewrite (load_frame_since _ _ 0) by reflexivity.
  unfold lift at 1. rewrite HX1.
  rewrite bind_new_since. reflexivity.
Qed.

End RunAlign.

(** The training pair exists for each of the three outcome columns, for
    every price table. *)
Lemma training_pair_total fm P name :
  In name ["open_1"; "close_1"; "close_5"]%string ->
  exists X y, training_pair (features fm P) (outcomes fm P) name = Ok (X, y).
Proof.
  intros [<-|[<-|[<-|[]]]]; eexists; eexists; reflexivity.
Qed.

(** ** The prices under the derivations *)

(** C7. Deriving the features and the outcomes leaves the prices as they
    were: from any state of the kernel in which [prices] is bound to a price
    table [P], the two cells run, [prices] is still bound to the same
    object, every object of the heap is unchanged (the price table among
    them), and [features] and [outcomes] are bound to two new frames that
    hold the features and the outcomes of [P], computed from [P] alone,
    whatever [features] and [outcomes] were bound to before. *)
Theorem derived_tables_leave_prices_unchanged (fm : fill_method) (k : kernel)
        (l : nat) (P : list price_row) :
  lookup "prices" (globals k) = Some l ->
  nth_error (heap k) l = Some (PricesObj P) ->
  exists k',
    (features_cell fm ;;; outcomes_cell fm) k = Ok (tt, k')
    /\ lookup "prices" (globals k') = Some l
    /\ (forall i o, nth_error (heap k) i = Some o -> nth_error (heap k') i = Some o)
    /\ exists lf lo,
         lookup "features" (globals k') = Some lf
         /\ lookup "outcomes" (globals k') = Some lo
         /\ length (heap k) <= lf /\ length (heap k) <= lo /\ lf <> lo
         /\ nth_error (heap k') lf = Some (FrameObj (features fm P))
         /\ nth_error (heap k') lo = Some (FrameObj (outcomes fm P)).
Proof.
  intros Hb Ho. eexists. split.
  - unfold seq_cmd. rewrite (kernel_since k) at 1.
    rewrite (run_features_cell fm _ _ P l Hb Ho).
    apply (run_outcomes_cell fm _ _ P l Hb Ho).
  - unfold since. cbn [globals heap app lookup String.eqb Ascii.eqb Bool.eqb].
    split; [exact Hb|]. split.
    + intros i o Hi. rewrite nth_error_app1; auto.
      apply nth_error_Some. congruence.
    + exists (length (heap k) + 0), (length (heap k) + 1).
      repeat split; try lia; rewrite nth_error_app2 by lia.
      * replace (length (heap k) + 0 - length (heap k)) with 0 by lia. reflexivity.
      * replace (length (heap k) + 1 - length (heap k)) with 1 by lia. reflexivity.
Qed.

Lemma derived_tables_leave_prices_unchanged_witness :
  exists k',
    (features_cell Pad ;;; outcomes_cell Pad) example_kernel = Ok (tt, k')
    /\ lookup "prices" (globals k') = Some 0
    /\ (forall i o, nth_error (heap example_kernel) i = Some o ->
                    nth_error (heap k') i = Some o)
    /\ exists lf lo,
         lookup "features" (globals k') = Some lf
         /\ lookup "outcomes" (globals k') = Some lo
         /\ length (heap example_kernel) <= lf /\ length (heap example_kernel) <= lo
         /\ lf <> lo
         /\ nth_error (heap k') lf = Some (FrameObj (features Pad example_prices))
         /\ nth_error (heap k') lo = Some (FrameObj (outcomes Pad example_prices)).
Proof.
  apply (derived_tables_leave_prices_unchanged Pad example_kernel 0 example_prices).
  - reflexivity.
  - reflexivity.
Defined.

(** ** The values of one symbol's columns, row by row *)

Lemma by_symbol_single f c G s :
  (forall l, length (f l) = length l) ->
  (forall r, In r G -> p_symbol r = s) ->
  map snd (by_symbol f c G) = f (map c G).
Proof.
  intros Hl Hs. unfold by_symbol.
  assert (Hall : forall A (T : list (index_key * A)),
             map fst T = map p_key G -> restrict (of_symbol s) T = T).
  { intros A T HT. apply restrict_all. intros r Hr.
    assert (Hk : In (fst r) (map p_key G)) by (rewrite <- HT; now apply in_map).
    apply in_map_iff in Hk as (x & Hx & HxG). rewrite <- Hx.
    unfold of_symbol, p_key. simpl. rewrite (Hs x HxG). apply String.eqb_refl. }
  rewrite <- (Hall _ (groupby f (column c G)))
    by now rewrite groupby_index, column_index.
  rewrite groupby_of_symbol by assumption.
  rewrite (Hall _ (column c G)) by apply column_index.
  unfold transform. rewrite combine_map_snd.
  - unfold column. now rewrite map_map.
  - now rewrite Hl, !length_map.
Qed.

Lemma series_op_values g a b :
  map snd (series_op g a b) = zip_with g (map snd a) (map snd b).
Proof.
  unfold series_op. revert b. induction a as [|x a IH]; intros [|y b]; simpl; auto.
  now rewrite IH.
Qed.

Lemma add_column_nth col rs i d1 d2 d3 :
  i < length rs -> i < length col ->
  nth i (add_column col rs) d1 = (fst (nth i rs d2), snd (nth i rs d2) ++ [snd (nth i col d3)]).
Proof.
  intros H1 H2. unfold add_column.
  now rewrite (zip_with_nth _ _ _ _ d2 d3) by assumption.
Qed.

Lemma float_column_nth S i k :
  i < length S ->
  snd (nth i (float_column S) (k, CFloat nan)) = CFloat (nth i (map snd S) nan).
Proof.
  intros Hi. unfold float_column.
  change (k, CFloat nan)
    with ((fun e : index_key * float => (fst e, CFloat (snd e))) (k, nan)).
  rewrite map_nth. cbn [snd].
  change nan with (snd (k, nan)) at 2. now rewrite map_nth.
Qed.

Lemma nth_shift_0 l i : i < length l -> nth i (shift 0 l) nan = nth i l nan.
Proof.
  intros Hi. rewrite shift_nth by assumption. rewrite Z.sub_0_r, Nat2Z.id.
  replace (0 <=? Z.of_nat i)%Z with true by (symmetry; apply Z.leb_le; lia).
  replace (Z.of_nat i <? Z.of_nat (length l))%Z with true
    by (symmetry; apply Z.ltb_lt; lia).
  reflexivity.
Qed.

Lemma nth_shift_outside k l i :
  i < length l ->
  (Z.of_nat i - k < 0 \/ Z.of_nat (length l) <= Z.of_nat i - k)%Z ->
  nth i (shift k l) nan = nan.
Proof.
  intros Hi Ho. rewrite shift_nth by assumption.
  destruct (0 <=? Z.of_nat i - k)%Z eqn:H0; simpl; auto.
  apply Z.leb_le in H0.
  replace (Z.of_nat i - k <? Z.of_nat (length l))%Z with false
    by (symmetry; apply Z.ltb_ge; lia).
  reflexivity.
Qed.

Lemma nth_shift_inside k l i :
  i < length l ->
  (0 <= Z.of_nat i - k < Z.of_nat (length l))%Z ->
  nth i (shift k l) nan = nth (Z.to_nat (Z.of_nat i - k)) l nan.
Proof.
  intros Hi Ho. rewrite shift_nth by assumption.
  replace (0 <=? Z.of_nat i - k)%Z with true by (symmetry; apply Z.leb_le; lia).
  replace (Z.of_nat i - k <? Z.of_nat (length l))%Z with true
    by (symmetry; apply Z.ltb_lt; lia).
  reflexivity.
Qed.

Lemma nth_proper l i :
  Forall (fun x => F64.proper x = true) l -> i < length l ->
  F64.proper (nth i l nan) = true.
Proof.
  intros H Hi. rewrite Forall_forall in H. apply H. now apply nth_In.
Qed.

Lemma proper_no_nan l :
  Forall (fun x => F64.proper x = true) l ->
  forallb (fun x => negb (F64.isnan x)) l = true.
Proof.
  intros H. apply forallb_forall. rewrite Forall_forall in H.
  intros x Hx. now rewrite (proper_present x (H x Hx)).
Qed.

(** [pct_change] is missing where the shifted row does not exist ... *)
Lemma pct_change_nth_outside fm k l i :
  i < length l ->
  (Z.of_nat i - k < 0 \/ Z.of_nat (length l) <= Z.of_nat i - k)%Z ->
  nth i (pct_change fm k l) nan = nan.
Proof.
  intros Hi Ho. unfold pct_change.
  set (data := match fm with NoFill => l | _ => ffill l end).
  assert (Hd : length data = length l).
  { unfold data, ffill. destruct fm; now rewrite ?ffill_from_length. }
  assert (Hrs : nth i (zip_with (fun a b => F64.sub (F64.div a b) F64.one)
                                data (shift k data)) nan = nan).
  { rewrite (zip_with_nth _ _ _ _ nan nan) by (rewrite ?shift_length; lia).
    rewrite nth_shift_outside by lia. now rewrite div_nan_r. }
  destruct fm; auto.
  rewrite (zip_with_nth _ _ _ _ nan nan)
    by (rewrite ?zip_with_length, ?shift_length; lia).
  rewrite Hrs. now destruct (F64.isnan (nth i l nan)).
Qed.

(** ... and present where it exists, on a column of finite non-zero
    values. *)
Lemma pct_change_nth_inside fm k l i :
  i < length l ->
  (0 <= Z.of_nat i - k < Z.of_nat (length l))%Z ->
  Forall (fun x => F64.proper x = true) l ->
  F64.isnan (nth i (pct_change fm k l) nan) = false.
Proof.
  intros Hi Ho Hp. unfold pct_change.
  assert (Hf : ffill l = l) by (apply ffill_no_nan, proper_no_nan, Hp).
  assert (Hrs : F64.isnan (nth i (zip_with (fun a b => F64.sub (F64.div a b) F64.one)
                                           l (shift k l)) nan) = false).
  { rewrite (zip_with_nth _ _ _ _ nan nan) by (rewrite ?shift_length; lia).
    rewrite nth_shift_inside by lia.
    apply sub_present; [|apply one_proper].
    apply div_present; [apply proper_present|]; apply nth_proper; auto; lia. }
  destruct fm; rewrite ?Hf; auto.
  rewrite (zip_with_nth _ _ _ _ nan nan)
    by (rewrite ?zip_with_length, ?shift_length; lia).
  rewrite (proper_present _ (nth_proper l i Hp Hi)). exact Hrs.
Qed.

(** ** Rows of one symbol *)

Lemma single_symbol s P r : In r (restrict_prices (of_symbol s) P) -> p_symbol r = s.
Proof.
  intros H. apply restrict_prices_In in H as [_ H]. now apply String.eqb_eq in H.
Qed.

Lemma new_frame_nth idx i k0 :
  snd (nth i (map (fun k : index_key => (k, @nil cell)) idx) (k0, [])) = [].
Proof.
  change (k0, @nil cell) with ((fun k : index_key => (k, @nil cell)) k0).
  now rewrite map_nth.
Qed.

Lemma day_column_nth (g : date -> Z) idx i k0 :
  i < length idx ->
  exists z, snd (nth i (map (fun k : index_key => (k, CInt (g (fst k)))) idx)
                     (k0, CFloat nan)) = CInt z.
Proof.
  intros Hi.
  rewrite (nth_indep _ _ (k0, CInt (g (fst k0)))) by now rewrite length_map.
  change (k0, CInt (g (fst k0)))
    with ((fun k : index_key => (k, CInt (g (fst k)))) k0).
  rewrite map_nth. simpl. eauto.
Qed.

Lemma map_sub_one_nth l i :
  nth i (map (fun x => F64.sub x F64.one) l) nan = F64.sub (nth i l nan) F64.one.
Proof.
  change nan with ((fun x => F64.sub x F64.one) nan) at 1. now rewrite map_nth.
Qed.

Section OneSymbol.

Variable fm : fill_method.
Variable s : symbol.
Variable G : list price_row.
Hypothesis single : forall r, In r G -> p_symbol r = s.

Let O := map open G.
Let C := map close G.
Let V := map volume G.

Lemma open_1_values :
  map snd (open_1 G) =
  map (fun x => F64.sub x F64.one) (zip_with F64.div (shift (-1) O) (shift 0 C)).
Proof.
  unfold open_1, series_sub_scalar, series_div.
  rewrite map_map. cbn [snd]. rewrite <- (map_map snd (fun x => F64.sub x F64.one)).
  rewrite series_op_values, !(by_symbol_single _ _ G s) by auto using shift_length.
  reflexivity.
Qed.

Lemma close_values k : map snd (by_symbol (pct_change fm k) close G) = pct_change fm k C.
Proof. apply (by_symbol_single _ _ G s); auto using pct_change_length. Qed.

Lemma volume_change_ratio_values :
  map snd (volume_change_ratio G) = zip_with F64.div (diff 1 V) (shift 1 V).
Proof.
  unfold volume_change_ratio, series_div.
  rewrite series_op_values, !(by_symbol_single _ _ G s)
    by auto using shift_length, diff_length.
  reflexivity.
Qed.

Lemma intraday_chg_values :
  map snd (intraday_chg G) =
  zip_with F64.div (zip_with F64.sub (shift 0 C) (shift 0 O)) (shift 0 O).
Proof.
  unfold intraday_chg, series_div, series_sub.
  rewrite !series_op_values, !(by_symbol_single _ _ G s) by auto using shift_length.
  reflexivity.
Qed.

(** The cells of the [i]-th row of the outcomes. *)
Lemma outcomes_row i :
  i < length G ->
  snd (row i (rows (outcomes fm G))) =
  [CFloat (F64.sub (F64.div (nth i (shift (-1) O) nan) (nth i (shift 0 C) nan)) F64.one);
   CFloat (nth i (pct_change fm (-1) C) nan);
   CFloat (nth i (pct_change fm (-5) C) nan)].
Proof.
  intros Hi. unfold row, outcomes, assign. cbn [rows new_frame].
  assert (Hlen : forall A (T : list (index_key * A)),
             map fst T = map p_key G -> i < length T).
  { intros A T HT. apply (f_equal (@length _)) in HT.
    rewrite !length_map in HT. lia. }
  unfold no_row.
  rewrite (add_column_nth _ _ _ _ no_row (fst no_row, CFloat nan))
    by (apply Hlen; auto 10 with frame).
  rewrite (add_column_nth _ _ _ _ no_row (fst no_row, CFloat nan))
    by (apply Hlen; auto 10 with frame).
  rewrite (add_column_nth _ _ _ _ no_row (fst no_row, CFloat nan))
    by (apply Hlen; auto 10 with frame).
  cbn [snd].
  unfold no_row at 1. rewrite new_frame_nth. cbn [app].
  rewrite !float_column_nth
    by (apply Hlen; auto with frame).
  unfold close_1, close_5. rewrite open_1_values, !close_values.
  rewrite map_sub_one_nth.
  rewrite (zip_with_nth _ _ _ _ nan nan) by (rewrite shift_length; unfold O, C;
                                              rewrite length_map; lia).
  reflexivity.
Qed.

End OneSymbol.

(** ** What an outcome reads *)

Lemma series_ext {A} (a b : list (index_key * A)) :
  map fst a = map fst b -> map snd a = map snd b -> a = b.
Proof.
  revert b. induction a as [|[k v] a IH]; intros [|[k' v'] b]; simpl;
    intros Hk Hv; try discriminate; [reflexivity|].
  injection Hk as -> Hk. injection Hv as -> Hv. f_equal. now apply IH.
Qed.

(** [shift(-1)] does not read the first value. *)
Lemma shift_back_tl l l' :
  length l = length l' -> tl l = tl l' -> shift (-1) l = shift (-1) l'.
Proof.
  intros Hl Ht. apply (nth_ext _ _ nan nan); [now rewrite !shift_length|].
  intros i Hi. rewrite shift_length in Hi.
  destruct (Nat.lt_ge_cases (i + 1) (length l)) as [Hin|Hout].
  - rewrite !nth_shift_inside by lia.
    replace (Z.to_nat (Z.of_nat i - -1)) with (S i) by lia.
    destruct l as [|x l], l' as [|x' l']; simpl in *; try lia. now subst l'.
  - now rewrite !nth_shift_outside by lia.
Qed.

(** The outcomes of a table of one symbol are computed from its labels, its
    closes, and its opens but the first. *)
Lemma outcomes_single_ext fm s G1 G2 :
  (forall r, In r G1 -> p_symbol r = s) ->
  (forall r, In r G2 -> p_symbol r = s) ->
  map p_key G1 = map p_key G2 ->
  map close G1 = map close G2 ->
  tl (map open G1) = tl (map open G2) ->
  outcomes fm G1 = outcomes fm G2.
Proof.
  intros H1 H2 Hk Hc Ho.
  assert (Hlen : length (map open G1) = length (map open G2)).
  { rewrite !length_map. rewrite <- (length_map p_key G1), Hk. apply length_map. }
  assert (Eo : open_1 G1 = open_1 G2).
  { apply series_ext; [now rewrite !open_1_index|].
    rewrite (open_1_values s G1 H1), (open_1_values s G2 H2).
    now rewrite (shift_back_tl _ _ Hlen Ho), Hc. }
  assert (E1 : close_1 fm G1 = close_1 fm G2).
  { apply series_ext; [now rewrite !close_1_index|]. unfold close_1.
    now rewrite (close_values fm s G1 H1), (close_values fm s G2 H2), Hc. }
  assert (E5 : close_5 fm G1 = close_5 fm G2).
  { apply series_ext; [now rewrite !close_5_index|]. unfold close_5.
    now rewrite (close_values fm s G1 H1), (close_values fm s G2 H2), Hc. }
  unfold outcomes. now rewrite Eo, E1, E5, Hk.
Qed.

Lemma restrict_prices_nil p P :
  restrict_prices p P = [] -> forall r, In r P -> p (p_key r) = false.
Proof.
  intros H r Hr. destruct (p (p_key r)) eqn:Hp; [|reflexivity].
  assert (Hin : In r (restrict_prices p P)) by now apply restrict_prices_In.
  rewrite H in Hin. destruct Hin.
Qed.

(** In a sorted table, the rows of [s] from [d] on are the rows labelled
    (d, s), and then the rows of [s] after [d]. *)
Lemma from_at_after d s P :
  sorted_index P ->
  restrict_prices (from d s) P
  = restrict_prices (at_key (d, s)) P ++ restrict_prices (after d s) P.
Proof.
  unfold sorted_index. induction P as [|r P IH]; intros Hs; [reflexivity|].
  cbn [map] in Hs. apply StronglySorted_inv in Hs as [Hs Hall].
  specialize (IH Hs). unfold restrict_prices in *. cbn [filter]. rewrite IH.
  unfold from, after, at_key, key_eqb. cbn [fst snd].
  destruct (String.eqb_spec (snd (p_key r)) s) as [Hsym|Hsym];
    [|now rewrite andb_false_r].
  rewrite andb_true_r. cbn [andb].
  destruct (Z.eqb_spec (fst (p_key r)) d) as [Hd|Hd].
  - rewrite Hd, Z.leb_refl, Z.ltb_irrefl. reflexivity.
  - destruct (Z.ltb_spec d (fst (p_key r))) as [Hlt|Hge].
    + replace (d <=? fst (p_key r))%Z with true by (symmetry; apply Z.leb_le; lia).
      replace (filter _ P) with (@nil price_row); [reflexivity|].
      symmetry. fold (restrict_prices (fun k => Z.eqb (fst k) d && String.eqb (snd k) s) P).
      assert (Hno : forall x, In x P ->
                (fun k : index_key => Z.eqb (fst k) d && String.eqb (snd k) s) (p_key x)
                = false).
      { intros x Hx. rewrite Forall_forall in Hall.
        specialize (Hall (p_key x) (in_map p_key _ _ Hx)).
        apply key_leb_date in Hall.
        replace (fst (p_key x) =? d)%Z with false; [reflexivity|].
        symmetry. apply Z.eqb_neq. lia. }
      unfold restrict_prices. clear -Hno.
      induction P as [|x P IHP]; [reflexivity|]. cbn [filter].
      rewrite (Hno x) by now left. apply IHP. intros y Hy. apply Hno. now right.
    + replace (d <=? fst (p_key r))%Z with false by (symmetry; apply Z.leb_gt; lia).
      reflexivity.
Qed.

Lemma at_most_one_row k P :
  NoDup (map p_key P) -> length (restrict_prices (at_key k) P) <= 1.
Proof.
  unfold restrict_prices. induction P as [|r P IH]; intros Hnd; [simpl; lia|].
  cbn [map] in Hnd. inversion Hnd as [|? ? Hr Hnd']; subst. cbn [filter].
  destruct (at_key k (p_key r)) eqn:Hk; [|now apply IH].
  apply at_key_eq in Hk.
  replace (filter _ P) with (@nil price_row); [simpl; lia|].
  symmetry. clear IH Hnd Hnd'.
  induction P as [|x P IHP]; [reflexivity|]. cbn [filter].
  destruct (at_key k (p_key x)) eqn:Hx.
  - apply at_key_eq in Hx. elim Hr. left. congruence.
  - apply IHP. intros H. apply Hr. now right.
Qed.

(** C2, amended. In a sorted price table with one row per label, the
    outcome row labelled (d, s) is computed from the close of the price row
    (d, s) and from the opens and closes of the price rows of [s] dated
    after [d], provided that close is present: a second table with the same
    close under (d, s) and the same dates, opens and closes of [s] after [d]
    has the same outcome rows under (d, s), whatever its earlier rows, its
    other symbols, the open, high, low and volume of its row (d, s), and
    the high, low and volume of its later rows. *)
Theorem outcomes_read_own_close_and_later_rows (fm : fill_method)
        (P1 P2 : list price_row) (d : date) (s : symbol) :
  sorted_index P1 -> sorted_index P2 ->
  NoDup (map p_key P1) ->
  map open_close (restrict_prices (after d s) P1)
    = map open_close (restrict_prices (after d s) P2) ->
  map close (restrict_prices (at_key (d, s)) P1)
    = map close (restrict_prices (at_key (d, s)) P2) ->
  (forall r, In r P1 -> p_key r = (d, s) -> F64.isnan (close r) = false) ->
  restrict (at_key (d, s)) (rows (outcomes fm P1))
    = restrict (at_key (d, s)) (rows (outcomes fm P2)).
Proof.
  intros Hs1 Hs2 Hnd Hafter Hclose Hp.
  pose proof (from_at_after d s P1 Hs1) as HF1.
  pose proof (from_at_after d s P2 Hs2) as HF2.
  pose proof (at_most_one_row (d, s) P1 Hnd) as Hone.
  assert (Hkeys : map p_key (restrict_prices (after d s) P1)
                  = map p_key (restrict_prices (after d s) P2)).
  { apply (f_equal (map (fun t => fst (fst t)))) in Hafter.
    now rewrite !map_map in Hafter. }
  assert (Hopens : map open (restrict_prices (after d s) P1)
                   = map open (restrict_prices (after d s) P2)).
  { apply (f_equal (map (fun t => snd (fst t)))) in Hafter.
    now rewrite !map_map in Hafter. }
  assert (Hcloses : map close (restrict_prices (after d s) P1)
                    = map close (restrict_prices (after d s) P2)).
  { apply (f_equal (map snd)) in Hafter. now rewrite !map_map in Hafter. }
  assert (Hat : forall P r, In r (restrict_prices (at_key (d, s)) P) ->
                            In r P /\ p_key r = (d, s)).
  { intros P r Hr. apply restrict_prices_In in Hr as [Hr Hk].
    apply at_key_eq in Hk. auto. }
  assert (Hsym : forall P r, In r (restrict_prices (from d s) P) -> p_symbol r = s).
  { intros P r Hr. apply restrict_prices_In in Hr as [_ Hk].
    unfold from in Hk. apply andb_true_iff in Hk as [Hk _].
    now apply String.eqb_eq in Hk. }
  destruct (restrict_prices (at_key (d, s)) P1) as [|a1 A1] eqn:HA1;
    destruct (restrict_prices (at_key (d, s)) P2) as [|a2 A2] eqn:HA2;
    try discriminate Hclose.
  - rewrite !outcomes_at_absent_key;
      first [reflexivity | exact (restrict_prices_nil _ _ HA1)
            | exact (restrict_prices_nil _ _ HA2)].
  - destruct A1 as [|? ?]; [|simpl in Hone; lia].
    destruct A2 as [|? ?]; [|discriminate Hclose].
    cbn [map] in Hclose. injection Hclose as Hc.
    destruct (Hat P1 a1) as [Hin1 Hk1]; [rewrite HA1; now left|].
    destruct (Hat P2 a2) as [Hin2 Hk2]; [rewrite HA2; now left|].
    assert (Hpres : F64.isnan (close a1) = false) by auto.
    rewrite (restrict_at_key_from d s (rows (outcomes fm P1))).
    rewrite (restrict_at_key_from d s (rows (outcomes fm P2))).
    rewrite !outcomes_from; auto.
    + f_equal. f_equal. apply (outcomes_single_ext fm s); try apply Hsym.
      * rewrite HF1, HF2. cbn [app map]. now rewrite Hk1, Hk2, Hkeys.
      * rewrite HF1, HF2. cbn [app map]. now rewrite Hc, Hcloses.
      * rewrite HF1, HF2. cbn [app map tl]. exact Hopens.
    + rewrite HF2. cbn [app map head_present]. now rewrite <- Hc, Hpres.
    + rewrite HF1. cbn [app map head_present]. now rewrite Hpres.
Qed.

Lemma outcomes_read_own_close_and_later_rows_witness :
  restrict (at_key (17002%Z, "A"%string)) (rows (outcomes Pad example_prices))
    = restrict (at_key (17002%Z, "A"%string))
               (rows (outcomes Pad example_prices_own_quotes_changed)).
Proof.
  apply (outcomes_read_own_close_and_later_rows Pad
           example_prices example_prices_own_quotes_changed).
  - apply sorted_keysb_correct. vm_compute. reflexivity.
  - apply sorted_keysb_correct. vm_compute. reflexivity.
  - vm_compute. repeat (constructor; [simpl; intuition discriminate|]). constructor.
  - vm_compute. reflexivity.
  - vm_compute. reflexivity.
  - intros r Hr Hk. vm_compute in Hr.
    repeat (destruct Hr as [<-|Hr]; [try discriminate Hk; reflexivity|]).
    destruct Hr.
Defined.

Lemma proper_column (c : price_row -> float) G :
  (forall r, In r G -> F64.proper (c r) = true) ->
  Forall (fun x => F64.proper x = true) (map c G).
Proof.
  intros H. apply Forall_forall. intros x Hx.
  apply in_map_iff in Hx as (r & <- & Hr). auto.
Qed.

(** ** Missing outcomes at the end of the history *)

(** C4, amended. Let a symbol have [n] price rows, and take its [i]-th
    row.  [open_1] and [close_1] are missing on the last row, and [close_5]
    is missing on the last five rows (those with fewer than five later
    rows).  Where the later row exists, the outcome is present, provided
    the opens and closes of the symbol are finite and non-zero. *)
Theorem outcomes_missing_at_end_of_history (fm : fill_method)
        (P : list price_row) (s : symbol) (i : nat) :
  i < length (restrict_prices (of_symbol s) P) ->
  length (rows_of_symbol s (outcomes fm P)) = length (restrict_prices (of_symbol s) P)
  /\ (length (restrict_prices (of_symbol s) P) <= i + 1 ->
      missing 0 (row i (rows_of_symbol s (outcomes fm P))) = true
      /\ missing 1 (row i (rows_of_symbol s (outcomes fm P))) = true)
  /\ (length (restrict_prices (of_symbol s) P) <= i + 5 ->
      missing 2 (row i (rows_of_symbol s (outcomes fm P))) = true)
  /\ (proper_prices s P ->
      (i + 1 < length (restrict_prices (of_symbol s) P) ->
       missing 0 (row i (rows_of_symbol s (outcomes fm P))) = false
       /\ missing 1 (row i (rows_of_symbol s (outcomes fm P))) = false)
      /\ (i + 5 < length (restrict_prices (of_symbol s) P) ->
          missing 2 (row i (rows_of_symbol s (outcomes fm P))) = false)).
Proof.
  intros Hi. unfold rows_of_symbol. rewrite outcomes_of_symbol.
  set (G := restrict_prices (of_symbol s) P) in *.
  assert (Hsingle : forall r, In r G -> p_symbol r = s) by apply single_symbol.
  assert (HlO : length (map open G) = length G) by apply length_map.
  assert (HlC : length (map close G) = length G) by apply length_map.
  unfold missing, cell_at. rewrite (outcomes_row fm s G Hsingle i Hi).
  cbn [nth isna].
  split; [|split; [|split]].
  - rewrite <- (length_map fst), <- (length_map p_key G).
    f_equal. apply outcomes_index.
  - intros Hn. split.
    + rewrite nth_shift_outside by lia. reflexivity.
    + rewrite pct_change_nth_outside by lia. reflexivity.
  - intros Hn. rewrite pct_change_nth_outside by lia. reflexivity.
  - intros Hp.
    assert (HpG : forall r, In r G ->
                F64.proper (open r) = true /\ F64.proper (close r) = true).
    { intros r Hr. apply Hp; [now apply restrict_prices_In in Hr|now apply Hsingle]. }
    assert (HpO : Forall (fun x => F64.proper x = true) (map open G)).
    { apply proper_column. intros r Hr. now apply HpG. }
    assert (HpC : Forall (fun x => F64.proper x = true) (map close G)).
    { apply proper_column. intros r Hr. now apply HpG. }
    split.
    + intros Hn. split.
      * rewrite nth_shift_inside, nth_shift_0 by lia.
        apply sub_present; [|apply one_proper].
        apply div_present; [apply proper_present|]; apply nth_proper; auto; lia.
      * apply pct_change_nth_inside; auto; lia.
    + intros Hn. apply pct_change_nth_inside; auto; lia.
Qed.

Lemma outcomes_missing_at_end_of_history_witness :
  length (rows_of_symbol "A"%string (outcomes Pad example_prices))
    = length (restrict_prices (of_symbol "A"%string) example_prices)
  /\ missing 0 (row 2 (rows_of_symbol "A"%string (outcomes Pad example_prices))) = false
  /\ missing 1 (row 2 (rows_of_symbol "A"%string (outcomes Pad example_prices))) = false
  /\ missing 2 (row 2 (rows_of_symbol "A"%string (outcomes Pad example_prices))) = false.
Proof.
  destruct (outcomes_missing_at_end_of_history Pad example_prices "A"%string 2)
    as (Hl & _ & _ & Hp).
  - vm_compute. lia.
  - split; [exact Hl|].
    destruct Hp as [H1 H5].
    + intros r Hr Hs. vm_compute in Hr.
      repeat (destruct Hr as [<-|Hr]; [repeat split; reflexivity|]).
      destruct Hr.
    + destruct H1 as [Ha Hb]; [vm_compute; lia|].
      split; [exact Ha|]. split; [exact Hb|].
      apply H5. vm_compute. lia.
Defined.

(** C4 as stated fails: with two sessions of one symbol of which the
    second has no open, [open_1] of the first session is missing although
    both rows exist. *)
Lemma outcome_missing_although_rows_exist :
  ~ outcome_present_where_rows_exist PadMasked
  /\ ~ outcome_present_where_rows_exist Pad
  /\ ~ outcome_present_where_rows_exist NoFill.
Proof.
  repeat split; intros H;
    destruct (H two_sessions_open_missing "A"%string 0) as [H1 _];
    (destruct H1 as [H1 _]; [vm_compute; lia|]);
    vm_compute in H1; discriminate H1.
Qed.

(** ** The first rows of a symbol in the features *)

Lemma filter_firstn_none {A} (p : A -> bool) n l d :
  (forall i, i < n -> i < length l -> p (nth i l d) = false) ->
  filter p l = filter p (skipn n l).
Proof.
  revert l. induction n as [|n IH]; intros l H; [reflexivity|].
  destruct l as [|x l]; [reflexivity|]. cbn [skipn filter].
  assert (H0 : p x = false) by (apply (H 0); simpl; lia).
  rewrite H0.
  apply IH. intros i Hi Hl. apply (H (S i)); simpl; lia.
Qed.



Section OneSymbolFeatures.

Variable fm : fill_method.
Variable s : symbol.
Variable G : list price_row.
Hypothesis single : forall r, In r G -> p_symbol r = s.

Let O := map open G.
Let C := map close G.
Let V := map volume G.

(** The cells of the [i]-th row of the raw features. *)
Lemma features_raw_row i :
  i < length G ->
  exists dw dm,
    snd (row i (rows (features_raw fm G))) =
    [CFloat (F64.div (F64.sub (nth i V nan) (nth i (shift 1 V) nan))
                     (nth i (shift 1 V) nan));
     CFloat (nth i (pct_change fm 5 C) nan);
     CFloat (F64.div (F64.sub (nth i C nan) (nth i O nan)) (nth i O nan));
     CInt dw; CInt dm].
Proof.
  intros Hi. unfold row. rewrite features_raw_rows.
  assert (Hlen : forall A (T : list (index_key * A)),
             map fst T = map p_key G -> i < length T).
  { intros A T HT. apply (f_equal (@length _)) in HT.
    rewrite !length_map in HT. lia. }
  assert (HV : length V = length G) by apply length_map.
  assert (HC : length C = length G) by apply length_map.
  assert (HO : length O = length G) by apply length_map.
  destruct (day_column_nth weekday (map p_key G) i (fst no_row)) as (dw & Hdw);
    [now rewrite length_map|].
  destruct (day_column_nth day (map p_key G) i (fst no_row)) as (dm & Hdm);
    [now rewrite length_map|].
  exists dw, dm. unfold day_of_month, day_of_week.
  do 5 (rewrite (add_column_nth _ _ _ _ no_row (fst no_row, CFloat nan))
         by (apply Hlen; auto 10 with frame); cbn [snd]).
  unfold no_row at 1. rewrite new_frame_nth. cbn [app].
  rewrite <- Hdw, <- Hdm.
  rewrite !float_column_nth by (apply Hlen; auto with frame).
  unfold momentum_5_day.
  rewrite (volume_change_ratio_values s G single), (intraday_chg_values s G single),
    (close_values fm s G single).
  fold V C O.
  rewrite !(zip_with_nth _ _ _ _ nan nan)
    by (unfold diff; rewrite ?zip_with_length, ?shift_length; lia).
  unfold diff.
  rewrite !(zip_with_nth _ _ _ _ nan nan)
    by (rewrite ?zip_with_length, ?shift_length; lia).
  rewrite !nth_shift_0 by lia.
  reflexivity.
Qed.

Lemma features_raw_length : length (rows (features_raw fm G)) = length G.
Proof.
  rewrite <- (length_map fst), <- (length_map p_key G). f_equal.
  apply features_raw_index.
Qed.

(** [momentum_5_day] is missing on the first five rows. *)
Lemma momentum_missing i :
  i < length G -> i < 5 -> missing 1 (row i (rows (features_raw fm G))) = true.
Proof.
  intros Hi H5. destruct (features_raw_row i Hi) as (dw & dm & Hr).
  unfold missing, cell_at. rewrite Hr. cbn [nth isna].
  rewrite pct_change_nth_outside; [reflexivity|unfold C; now rewrite length_map|lia].
Qed.


Lemma first_rows_incomplete i :
  i < 5 -> i < length (rows (features_raw fm G)) ->
  complete (nth i (rows (features_raw fm G)) no_row) = false.
Proof.
  intros H5 Hi. rewrite features_raw_length in Hi.
  pose proof (momentum_missing i Hi H5) as Hm.
  destruct (features_raw_row i Hi) as (dw & dm & Hr).
  unfold missing, cell_at, row in *. unfold complete. rewrite Hr in *.
  cbn [nth] in Hm. cbn [forallb]. rewrite Hm. cbn. apply andb_false_r.
Qed.


End OneSymbolFeatures.




(** ** Missing values and the fit *)

Lemma forallb_false {A} (p : A -> bool) l :
  forallb p l = false <-> exists x, In x l /\ p x = false.
Proof.
  induction l as [|a l IH]; simpl.
  - split; [discriminate|intros (x & [] & _)].
  - rewrite andb_false_iff, IH. split.
    + intros [H|(x & Hx & H)]; eauto.
    + intros (x & [<-|Hx] & H); eauto.
Qed.

Lemma fit_cases X y : fit X y = Ok tt \/ fit X y = Raise ValueError.
Proof. unfold fit. destruct (_ && _); auto. Qed.

(** On complete data of matching lengths, [fit] raises exactly when [X]
    has no row or a value is infinite. *)
Lemma fit_raises_iff X y :
  columns X <> [] ->
  length y = length (rows X) ->
  (forall r, In r (rows X) -> complete r = true) ->
  (forall e, In e y -> isna (snd e) = false) ->
  fit X y = Raise ValueError <->
  rows X = []
  \/ (exists r c, In r (rows X) /\ In c (snd r) /\ isinf c = true)
  \/ (exists e, In e y /\ isinf (snd e) = true).
Proof.
  intros Hcols Hlen HX Hy. unfold fit.
  assert (E3 : negb (Nat.eqb (length (columns X)) 0) = true).
  { destruct (columns X); [contradiction|reflexivity]. }
  assert (E5 : Nat.eqb (length y) (length (rows X)) = true) by now apply Nat.eqb_eq.
  rewrite E3, E5, !andb_true_r.
  assert (Hfin : forall c, isna c = false -> finite_cell c = negb (isinf c)).
  { intros c Hc. unfold finite_cell. now rewrite Hc. }
  split.
  - intros H.
    destruct (forallb (fun r => forallb finite_cell (snd r)) (rows X)) eqn:E1.
    + destruct (Nat.eqb (length (rows X)) 0) eqn:E2.
      * left. apply Nat.eqb_eq in E2. now destruct (rows X).
      * destruct (forallb (fun e => finite_cell (snd e)) y) eqn:E4; [discriminate H|].
        right. right. apply forallb_false in E4 as (e & He & Hf).
        exists e. split; [assumption|].
        rewrite Hfin in Hf by auto. now apply negb_false_iff in Hf.
    + right. left. apply forallb_false in E1 as (r & Hr & Hf).
      apply forallb_false in Hf as (c & Hc & Hf). exists r, c. split; [|split]; auto.
      assert (Hna : isna c = false).
      { specialize (HX r Hr). unfold complete in HX. rewrite forallb_forall in HX.
        apply negb_true_iff. auto. }
      rewrite Hfin in Hf by assumption. now apply negb_false_iff in Hf.
  - intros [H|[(r & c & Hr & Hc & Hi)|(e & He & Hi)]].
    + rewrite H. reflexivity.
    + assert (E1 : forallb (fun r => forallb finite_cell (snd r)) (rows X) = false).
      { apply forallb_false. exists r. split; [assumption|].
        apply forallb_false. exists c. split; [assumption|].
        unfold finite_cell. rewrite Hi. apply andb_false_r. }
      now rewrite E1.
    + assert (E4 : forallb (fun e => finite_cell (snd e)) y = false).
      { apply forallb_false. exists e. split; [assumption|].
        unfold finite_cell. rewrite Hi. apply andb_false_r. }
      rewrite E4. now rewrite andb_false_r.
Qed.

(** The training pair of the notebook's tables: [X] has the five columns,
    [y] one value per row of [X], and neither holds a missing value. *)
Lemma training_pair_clean fm P name X y :
  training_pair (features fm P) (outcomes fm P) name = Ok (X, y) ->
  columns X <> []
  /\ length y = length (rows X)
  /\ (forall r, In r (rows X) -> In r (rows (features fm P)) /\ complete r = true)
  /\ (forall e, In e y -> isna (snd e) = false).
Proof.
  intros H.
  apply training_pair_explicit in H as (y0 & _ & _ & -> & ->);
    [|apply features_columns_distinct].
  assert (Hwf : forall r, In r (rows (features fm P)) ->
                          length (snd r) = length (columns (features fm P))).
  { intros r Hr. rewrite features_columns. now apply features_row_length in Hr. }
  cbn [columns rows]. split; [rewrite features_columns; discriminate|].
  split; [now rewrite !length_map|]. split.
  - intros r Hr. apply in_map_iff in Hr as (r1 & <- & Hr1).
    apply kept_rows in Hr1 as (r0 & c & Hr0 & -> & Hc & _). cbn [fst snd].
    rewrite <- (Hwf r0 Hr0), map_nth_seq. destruct r0; auto.
  - intros e He. apply in_map_iff in He as (r1 & <- & Hr1).
    apply kept_rows in Hr1 as (r0 & c & Hr0 & -> & _ & Hc). cbn [fst snd].
    now rewrite <- (Hwf r0 Hr0), app_nth2, Nat.sub_diag by lia.
Qed.

(** With at most five sessions of every symbol, no row of the features is
    left. *)
Lemma features_short_history fm P :
  (forall s, length (restrict_prices (of_symbol s) P) <= 5) ->
  rows (features fm P) = [].
Proof.
  intros Hshort. destruct (rows (features fm P)) as [|r R] eqn:HR; [reflexivity|].
  exfalso. set (s := snd (fst r)).
  assert (Hr : In r (restrict (of_symbol s) (rows (features fm P)))).
  { apply restrict_In. split; [rewrite HR; now left|].
    unfold of_symbol, s. apply String.eqb_refl. }
  rewrite features_of_symbol in Hr.
  set (G := restrict_prices (of_symbol s) P) in *.
  unfold features, dropna in Hr. cbn [rows] in Hr.
  rewrite (filter_firstn_none _ 5 _ no_row) in Hr.
  - rewrite skipn_all2 in Hr; [destruct Hr|].
    rewrite (features_raw_length fm G). apply Hshort.
  - intros i H5 Hi. apply (first_rows_incomplete fm s G (single_symbol s P)); auto.
Qed.

(** C6, amended. Missing values are omitted before the fit, and the fit
    still raises when the history is too short.  From any state of the
    kernel in which [prices] is bound to a price table, the cells that build
    [features], [outcomes] and the training pair of any of the three outcome
    columns run without raising; [features] is left bound to the rows of the
    raw features that have no missing cell; [X] and [y] hold no missing
    value, and every row of [X] is a row of [features].  The fit then
    either accepts the data or raises [ValueError], and it raises exactly
    when [X] has no row or a value of [X] or [y] is infinite.  It does raise
    when every symbol has at most five sessions, because all the rows were
    omitted. *)
Theorem missing_values_are_dropped_before_fit (fm : fill_method) (k : kernel)
        (l : nat) (P : list price_row) (name : string) :
  lookup "prices" (globals k) = Some l ->
  nth_error (heap k) l = Some (PricesObj P) ->
  In name ["open_1"; "close_1"; "close_5"]%string ->
  exists k' lf lx ly X y,
    (features_cell fm ;;; outcomes_cell fm ;;; align_cell name) k = Ok (tt, k')
    /\ lookup "features" (globals k') = Some lf
    /\ nth_error (heap k') lf = Some (FrameObj (features fm P))
    /\ (forall r, In r (rows (features fm P)) <->
                  In r (rows (features_raw fm P)) /\ complete r = true)
    /\ lookup "X" (globals k') = Some lx
    /\ nth_error (heap k') lx = Some (FrameObj X)
    /\ lookup "y" (globals k') = Some ly
    /\ nth_error (heap k') ly = Some (SeriesObj name y)
    /\ (forall r, In r (rows X) -> In r (rows (features fm P)) /\ complete r = true)
    /\ (forall e, In e y -> isna (snd e) = false)
    /\ (fit_cell k' = Ok (tt, k') \/ fit_cell k' = Raise ValueError)
    /\ (fit_cell k' = Raise ValueError <->
        rows X = []
        \/ (exists r c, In r (rows X) /\ In c (snd r) /\ isinf c = true)
        \/ (exists e, In e y /\ isinf (snd e) = true))
    /\ ((forall s, length (restrict_prices (of_symbol s) P) <= 5) ->
        fit_cell k' = Raise ValueError).
Proof.
  intros Hb Ho Hn.
  destruct (training_pair_total fm P name Hn) as (X & y & HXy).
  destruct (run_align_cell (heap k) (globals k) _ _ name _ _ HXy) as (y0 & Xy & Hrun).
  destruct (training_pair_clean fm P name X y HXy) as (Hcols & Hlen & HX & Hy).
  match type of Hrun with _ = Ok (tt, ?kf) => set (k' := kf) in * end.
  assert (Hfit : fit_cell k' = match fit X y with
                               | Ok a => Ok (a, k')
                               | Raise e => Raise e
                               end).
  { unfold fit_cell, seq_cmd, k'.
    erewrite (load_frame_since _ _ 5) by reflexivity.
    erewrite (load_series_since _ _ _ 4) by reflexivity.
    reflexivity. }
  assert (Hnew : forall j o,
             nth_error [FrameObj (features fm P); FrameObj (outcomes fm P);
                        SeriesObj name y0; FrameObj Xy; SeriesObj name y; FrameObj X] j
             = Some o ->
             nth_error (heap k') (length (heap k) + j) = Some o).
  { intros j o Hj. unfold k', since. cbn [heap].
    rewrite nth_error_app2 by lia.
    now replace (length (heap k) + j - length (heap k)) with j by lia. }
  exists k', (length (heap k) + 0), (length (heap k) + 5), (length (heap k) + 4), X, y.
  split.
  { unfold seq_cmd. rewrite (kernel_since k) at 1.
    rewrite (run_features_cell fm _ _ P l Hb Ho).
    rewrite (run_outcomes_cell fm _ _ P l Hb Ho).
    exact Hrun. }
  split; [reflexivity|]. split; [now apply Hnew|].
  split; [intros r; unfold features, dropna; cbn [rows]; apply filter_In|].
  split; [reflexivity|]. split; [now apply Hnew|].
  split; [reflexivity|]. split; [now apply Hnew|].
  split; [exact HX|]. split; [exact Hy|].
  assert (HXc : forall r, In r (rows X) -> complete r = true)
    by (intros r Hr; now apply HX).
  split; [|split].
  - rewrite Hfit. destruct (fit_cases X y) as [->| ->]; auto.
  - rewrite <- (fit_raises_iff X y Hcols Hlen HXc Hy). rewrite Hfit.
    destruct (fit_cases X y) as [->| ->]; [|tauto].
    split; discriminate.
  - intros Hshort. apply features_short_history with (fm := fm) in Hshort.
    assert (HXnil : rows X = []).
    { destruct (rows X) as [|r R] eqn:HR; [reflexivity|].
      destruct (HX r) as [Hr _]; [now left|]. rewrite Hshort in Hr. destruct Hr. }
    rewrite Hfit.
    assert (Hraise : fit X y = Raise ValueError)
      by (apply (fit_raises_iff X y Hcols Hlen HXc Hy); now left).
    now rewrite Hraise.
Qed.

Lemma missing_values_are_dropped_before_fit_witness :
  exists k' lf lx ly X y,
    (features_cell Pad ;;; outcomes_cell Pad ;;; align_cell "close_1"%string)
      example_kernel = Ok (tt, k')
    /\ lookup "features" (globals k') = Some lf
    /\ nth_error (heap k') lf = Some (FrameObj (features Pad example_prices))
    /\ (forall r, In r (rows (features Pad example_prices)) <->
                  In r (rows (features_raw Pad example_prices)) /\ complete r = true)
    /\ lookup "X" (globals k') = Some lx
    /\ nth_error (heap k') lx = Some (FrameObj X)
    /\ lookup "y" (globals k') = Some ly
    /\ nth_error (heap k') ly = Some (SeriesObj "close_1"%string y)
    /\ (forall r, In r (rows X) ->
                  In r (rows (features Pad example_prices)) /\ complete r = true)
    /\ (forall e, In e y -> isna (snd e) = false)
    /\ (fit_cell k' = Ok (tt, k') \/ fit_cell k' = Raise ValueError)
    /\ (fit_cell k' = Raise ValueError <->
        rows X = []
        \/ (exists r c, In r (rows X) /\ In c (snd r) /\ isinf c = true)
        \/ (exists e, In e y /\ isinf (snd e) = true))
    /\ ((forall s, length (restrict_prices (of_symbol s) example_prices) <= 5) ->
        fit_cell k' = Raise ValueError).
Proof.
  apply (missing_values_are_dropped_before_fit Pad example_kernel 0 example_prices
           "close_1"%string).
  - reflexivity.
  - reflexivity.
  - simpl. auto.
Defined.

(** C6 as stated fails: with two sessions of one symbol every row of the
    features misses [momentum_5_day] and is omitted, the training pair has
    no row, and the fit raises [ValueError]. *)
Lemma fit_raises_on_short_history :
  ~ pipeline_never_raises PadMasked
  /\ ~ pipeline_never_raises Pad
  /\ ~ pipeline_never_raises NoFill.
Proof.
  repeat split; intros H;
    destruct (H short_history_kernel 0 two_sessions "close_1"%string
                eq_refl eq_refl (or_intror (or_introl eq_refl))) as (k' & Hk);
    vm_compute in Hk; discriminate Hk.
Qed.

(** * Further properties of the notebook *)

(** ** The index of the prices *)

Lemma key_le_antisym a b : key_le a b -> key_le b a -> a = b.
Proof.
  rewrite !key_le_iff. intros [H1|[H1 S1]] [H2|[H2 S2]]; try lia.
  destruct a, b; simpl in *. f_equal; auto. now apply String.leb_antisym.
Qed.

Lemma insert_row_head r x l :
  key_leb (p_key r) (p_key x) = true -> insert_row r (x :: l) = r :: x :: l.
Proof. intros H. simpl. now rewrite H. Qed.

(** Sorting leaves a sorted table as it is. *)
Lemma sort_index_sorted_id l : sorted_index l -> sort_index l = l.
Proof.
  unfold sorted_index. induction l as [|x l IH]; simpl; intros Hs; auto.
  apply StronglySorted_inv in Hs as [Hs Hx]. rewrite IH by assumption.
  destruct l as [|y l]; [reflexivity|].
  apply insert_row_head. inversion Hx; subst. assumption.
Qed.

(** [sort_index] twice is [sort_index] once: sorting the prices again
    changes nothing. *)
Theorem sort_index_idempotent (l : list price_row) :
  sort_index (sort_index l) = sort_index l.
Proof. apply sort_index_sorted_id, sort_index_sorted. Qed.

(** [sort_index] is stable: the rows under one label come out in the order
    they went in (the order in which [get_symbols] fetched them). *)
Theorem sort_index_stable (l : list price_row) (k : index_key) :
  filter (fun r => at_key k (p_key r)) (sort_index l)
  = filter (fun r => at_key k (p_key r)) l.
Proof.
  induction l as [|r l IH]; [reflexivity|].
  cbn [sort_index fold_right]. fold (sort_index l).
  rewrite filter_insert_row.
  - cbn [filter]. now rewrite IH.
  - intros x Hr Hx. apply at_key_eq in Hr, Hx. rewrite Hr, Hx. apply key_leb_refl.
Qed.

Lemma key_injective l x y :
  NoDup (map p_key l) -> In x l -> In y l -> p_key x = p_key y -> x = y.
Proof.
  induction l as [|a l IH]; simpl; intros Hd Hx Hy Hk; [tauto|].
  inversion Hd as [|? ? Ha Hd']; subst.
  destruct Hx as [->|Hx], Hy as [->|Hy]; auto.
  - elim Ha. rewrite Hk. now apply in_map.
  - elim Ha. rewrite <- Hk. now apply in_map.
Qed.

(** Two sorted tables with the same rows and distinct labels are equal. *)
Lemma sorted_permutation_unique a b :
  sorted_index a -> sorted_index b -> Permutation a b -> NoDup (map p_key a) ->
  a = b.
Proof.
  unfold sorted_index. revert b. induction a as [|x a IH]; intros b Ha Hb Hp Hd.
  - now apply Permutation_nil in Hp.
  - destruct b as [|y b].
    { apply Permutation_sym, Permutation_nil in Hp. discriminate. }
    simpl in Ha, Hb, Hd.
    apply StronglySorted_inv in Ha as [Ha Hxa].
    apply StronglySorted_inv in Hb as [Hb Hyb].
    rewrite Forall_forall in Hxa, Hyb.
    assert (Hxy : x = y).
    { assert (Hx : In x (y :: b)) by (apply (Permutation_in _ Hp); now left).
      assert (Hy : In y (x :: a))
        by (apply (Permutation_in _ (Permutation_sym Hp)); now left).
      destruct Hx as [Hx|Hx]; [now symmetry|].
      destruct Hy as [Hy|Hy]; [assumption|].
      apply (key_injective (x :: a)); simpl; auto.
      apply key_le_antisym.
      - apply Hxa. now apply in_map.
      - apply Hyb. now apply in_map. }
    subst y. f_equal. apply IH; auto.
    + now apply Permutation_cons_inv in Hp.
    + now inversion Hd.
Qed.

Lemma fetch_keys DataReader src b e s :
  map p_key (fetch DataReader src b e s)
  = map (fun q => (Date q, s)) (DataReader s src b e).
Proof. unfold fetch. rewrite map_map. reflexivity. Qed.

Lemma fetched_keys_distinct DataReader src b e symbols :
  NoDup symbols ->
  (forall s, In s symbols -> NoDup (map Date (DataReader s src b e))) ->
  NoDup (map p_key (flat_map (fetch DataReader src b e) symbols)).
Proof.
  induction symbols as [|s symbols IH]; intros Hs Hd; simpl; [constructor|].
  inversion Hs as [|? ? Hin Hs']; subst.
  rewrite map_app. apply NoDup_app.
  - rewrite fetch_keys.
    assert (H := Hd s (or_introl eq_refl)).
    induction (DataReader s src b e) as [|q qs IHq]; simpl in *; [constructor|].
    inversion H as [|? ? Hq H']; subst. constructor; auto.
    intros Hc. apply in_map_iff in Hc as (q' & Hq' & Hin').
    apply Hq. injection Hq' as <-. now apply in_map.
  - apply IH; auto. intros s' Hs0. apply Hd. now right.
  - intros k Hk1 Hk2. rewrite fetch_keys in Hk1.
    apply in_map_iff in Hk1 as (q & <- & _).
    apply in_map_iff in Hk2 as (r & Hr & Hin2).
    apply in_flat_map in Hin2 as (s' & Hs0 & Hr').
    unfold fetch in Hr'. apply in_map_iff in Hr' as (q' & <- & _).
    unfold p_key in Hr. simpl in Hr. injection Hr as _ ->. contradiction.
Qed.

(** When the symbols of the list are distinct and the data reader gives
    each date once per symbol, no label occurs twice in the table
    [get_symbols] returns. *)
Theorem get_symbols_index_unique
        (DataReader : symbol -> string -> option date -> option date -> list reader_row)
        (symbols : list symbol) (data_source : string)
        (begin_date end_date : option date) :
  NoDup symbols ->
  (forall s, In s symbols ->
             NoDup (map Date (DataReader s data_source begin_date end_date))) ->
  NoDup (map p_key (get_symbols DataReader symbols data_source begin_date end_date)).
Proof.
  intros Hs Hd. unfold get_symbols. rewrite fold_left_concat.
  eapply Permutation_NoDup.
  - apply Permutation_map, sort_index_perm.
  - now apply fetched_keys_distinct.
Qed.

Lemma example_reader_dates s src b e : NoDup (map Date (example_reader s src b e)).
Proof.
  unfold example_reader. rewrite map_map. simpl.
  repeat (constructor; [simpl; intuition discriminate|]). constructor.
Qed.

Lemma get_symbols_index_unique_witness :
  NoDup (map p_key (get_symbols example_reader ["CSCO"; "AAPL"]%string
                                "quandl"%string None None)).
Proof.
  apply (get_symbols_index_unique example_reader ["CSCO"; "AAPL"]%string).
  - repeat (constructor; [simpl; intuition discriminate|]). constructor.
  - intros s _. apply example_reader_dates.
Defined.

(** Under the same conditions the order of the symbols in the list does
    not matter: [get_symbols] returns the same table for any reordering of
    the list. *)
Theorem get_symbols_order_irrelevant
        (DataReader : symbol -> string -> option date -> option date -> list reader_row)
        (symbols symbols' : list symbol) (data_source : string)
        (begin_date end_date : option date) :
  NoDup symbols ->
  (forall s, In s symbols ->
             NoDup (map Date (DataReader s data_source begin_date end_date))) ->
  Permutation symbols symbols' ->
  get_symbols DataReader symbols data_source begin_date end_date
  = get_symbols DataReader symbols' data_source begin_date end_date.
Proof.
  intros Hs Hd Hp. unfold get_symbols. rewrite !fold_left_concat.
  apply sorted_permutation_unique.
  - apply sort_index_sorted.
  - apply sort_index_sorted.
  - rewrite <- !sort_index_perm. now apply Permutation_flat_map.
  - eapply Permutation_NoDup.
    + apply Permutation_map, sort_index_perm.
    + now apply fetched_keys_distinct.
Qed.

Lemma get_symbols_order_irrelevant_witness :
  get_symbols example_reader ["CSCO"; "AAPL"]%string "quandl"%string None None
  = get_symbols example_reader ["AAPL"; "CSCO"]%string "quandl"%string None None.
Proof.
  apply (get_symbols_order_irrelevant example_reader ["CSCO"; "AAPL"]%string).
  - repeat (constructor; [simpl; intuition discriminate|]). constructor.
  - intros s _. apply example_reader_dates.
  - apply perm_swap.
Defined.

(** The reader's rows come latest first; the table comes out by date, the
    two symbols side by side. *)
Example get_symbols_example :
  map p_key (get_symbols example_reader ["CSCO"; "AAPL"]%string "quandl"%string None None)
  = [(17000, "AAPL"); (17000, "CSCO"); (17001, "AAPL"); (17001, "CSCO");
     (17002, "AAPL"); (17002, "CSCO")]%Z%string.
Proof. vm_compute. reflexivity. Qed.

(** ** The indexes of the derived tables *)

(** [outcomes] has a row for every row of [prices], under the same labels
    in the same order, and three columns: nothing is dropped there. *)
Theorem outcomes_keeps_every_price_row (fm : fill_method) (P : list price_row) :
  index (outcomes fm P) = map p_key P
  /\ shape (outcomes fm P) = (length P, 3)
  /\ columns (outcomes fm P) = ["open_1"; "close_1"; "close_5"]%string.
Proof.
  split; [apply outcomes_index|]. split; [|reflexivity].
  unfold shape. f_equal.
  rewrite <- (length_map fst), <- (length_map p_key P). f_equal.
  apply outcomes_index.
Qed.

Lemma StronglySorted_map_filter {A B} (R : B -> B -> Prop) (f : A -> B) p l :
  StronglySorted R (map f l) -> StronglySorted R (map f (filter p l)).
Proof.
  induction l as [|x l IH]; simpl; intros H; [constructor|].
  apply StronglySorted_inv in H as [H Hx]. destruct (p x); simpl; auto.
  constructor; auto. rewrite Forall_forall in *. intros y Hy.
  apply Hx. apply in_map_iff in Hy as (z & <- & Hz). apply in_map.
  now apply filter_In in Hz.
Qed.

Lemma NoDup_map_filter {A B} (f : A -> B) p l :
  NoDup (map f l) -> NoDup (map f (filter p l)).
Proof.
  induction l as [|x l IH]; simpl; intros H; [constructor|].
  inversion H as [|? ? Hx H']; subst. destruct (p x); simpl; auto.
  constructor; auto. intros Hc. apply Hx.
  apply in_map_iff in Hc as (z & <- & Hz). apply in_map.
  now apply filter_In in Hz.
Qed.

(** [dropna] keeps the index of [features] in order: its labels are labels
    of [prices], in increasing order when those of [prices] are, and distinct
    when those of [prices] are. *)
Theorem features_index_in_order (fm : fill_method) (P : list price_row) :
  incl (index (features fm P)) (map p_key P)
  /\ (sorted_index P -> StronglySorted key_le (index (features fm P)))
  /\ (NoDup (map p_key P) -> NoDup (index (features fm P))).
Proof.
  unfold index, features, dropna. cbn [rows].
  pose proof (features_raw_index fm P) as Hi. unfold index in Hi.
  split; [|split].
  - intros k Hk. rewrite <- Hi. apply in_map_iff in Hk as (r & <- & Hr).
    apply in_map. now apply filter_In in Hr.
  - intros Hs. apply StronglySorted_map_filter. now rewrite Hi.
  - intros Hd. apply NoDup_map_filter. now rewrite Hi.
Qed.

Lemma features_index_in_order_witness :
  StronglySorted key_le (index (features Pad example_prices))
  /\ NoDup (index (features Pad example_prices)).
Proof.
  destruct (features_index_in_order Pad example_prices) as (_ & Hs & Hd).
  split.
  - apply Hs. apply sorted_keysb_correct. vm_compute. reflexivity.
  - apply Hd. vm_compute.
    repeat (constructor; [simpl; intuition discriminate|]). constructor.
Defined.

(** ** Grouping that changes nothing *)

Lemma shift_0 l : shift 0 l = l.
Proof.
  apply (nth_ext _ _ nan nan); [apply shift_length|].
  intros i Hi. rewrite shift_length in Hi. now apply nth_shift_0.
Qed.

Lemma combine_fst_snd {A B} (l : list (A * B)) : combine (map fst l) (map snd l) = l.
Proof. induction l as [|[a b] l IH]; simpl; congruence. Qed.

Lemma groupby_id f S : (forall l, f l = l) -> groupby f S = S.
Proof.
  intros Hf. apply by_groups_ext; [apply groupby_index|].
  intros s. rewrite groupby_of_symbol by (intros l; now rewrite Hf).
  unfold transform. rewrite Hf. apply combine_fst_snd.
Qed.

(** [intraday_chg] looks at one row at a time: grouping by symbol and
    shifting by 0 change nothing, and the value on a row is (close - open)
    / open of that row, whatever the other rows of the table. *)
Theorem intraday_chg_row_by_row (P : list price_row) :
  intraday_chg P
  = map (fun r => (p_key r, F64.div (F64.sub (close r) (open r)) (open r))) P.
Proof.
  unfold intraday_chg, by_symbol. rewrite !(groupby_id (shift 0)) by apply shift_0.
  unfold series_div, series_sub, series_op, column.
  induction P as [|r P IH]; simpl; [reflexivity|]. now rewrite IH.
Qed.

(** ** The fill of [pct_change] on columns without a missing value *)

Lemma mask_no_nan (rs l : list float) :
  forallb (fun x => negb (F64.isnan x)) l = true ->
  zip_with (fun r x => if F64.isnan x then nan else r) rs l
  = firstn (length l) rs.
Proof.
  revert rs. induction l as [|x l IH]; intros rs H.
  - destruct rs; reflexivity.
  - simpl in H. apply andb_true_iff in H as [Hx H].
    destruct rs as [|r rs]; [reflexivity|]. simpl.
    destruct (F64.isnan x); [discriminate|]. now rewrite IH.
Qed.

Lemma pct_change_fill_irrelevant fm k l :
  forallb (fun x => negb (F64.isnan x)) l = true ->
  pct_change fm k l = pct_change NoFill k l.
Proof.
  intros H. unfold pct_change, ffill. destruct fm; rewrite ?ffill_no_nan by assumption; auto.
  rewrite mask_no_nan by assumption. apply firstn_all2.
  rewrite zip_with_length, shift_length. lia.
Qed.

Lemma scatter_ext res res' seen S :
  (forall s, res s = res' s) -> scatter res seen S = scatter res' seen S.
Proof.
  intros H. revert seen. induction S as [|[k v] S IH]; intros seen; simpl; auto.
  now rewrite H, IH.
Qed.

Lemma group_column_present (c : price_row -> float) s P :
  (forall r, In r P -> F64.isnan (c r) = false) ->
  forallb (fun x => negb (F64.isnan x)) (group s (column c P)) = true.
Proof.
  intros H. apply forallb_forall. intros x Hx. unfold group, column in Hx.
  apply in_map_iff in Hx as ([k v] & <- & Hin). apply filter_In in Hin as [Hin _].
  apply in_map_iff in Hin as (r & Hr & HrP). injection Hr as _ <-. simpl.
  now rewrite H.
Qed.

Lemma by_symbol_pct_change_fill fm fm' k P :
  (forall r, In r P -> F64.isnan (close r) = false) ->
  by_symbol (pct_change fm k) close P = by_symbol (pct_change fm' k) close P.
Proof.
  intros H. unfold by_symbol, groupby. apply scatter_ext. intros s.
  rewrite (pct_change_fill_irrelevant fm), (pct_change_fill_irrelevant fm');
    auto using group_column_present.
Qed.

(** On a price table without a missing close, what [pct_change] does with
    its [fill_method] does not matter: the three behaviours give the same
    features and the same outcomes. *)
Theorem fill_method_irrelevant_without_missing_close
        (fm fm' : fill_method) (P : list price_row) :
  (forall r, In r P -> F64.isnan (close r) = false) ->
  features fm P = features fm' P /\ outcomes fm P = outcomes fm' P.
Proof.
  intros H. unfold features, features_raw, outcomes, momentum_5_day, close_1, close_5.
  now rewrite (by_symbol_pct_change_fill fm fm' 5),
    (by_symbol_pct_change_fill fm fm' (-1)), (by_symbol_pct_change_fill fm fm' (-5)).
Qed.

Lemma example_prices_closes r :
  In r example_prices -> F64.isnan (close r) = false.
Proof.
  intros Hr. vm_compute in Hr.
  repeat (destruct Hr as [<-|Hr]; [reflexivity|]). destruct Hr.
Qed.

Lemma fill_method_irrelevant_without_missing_close_witness :
  features PadMasked example_prices = features NoFill example_prices
  /\ outcomes PadMasked example_prices = outcomes NoFill example_prices.
Proof.
  apply (fill_method_irrelevant_without_missing_close PadMasked NoFill example_prices).
  apply example_prices_closes.
Defined.

(** ** What the columns hold *)

Lemma pct_change_nth_value fm k l i :
  i < length l ->
  (0 <= Z.of_nat i - k < Z.of_nat (length l))%Z ->
  forallb (fun x => negb (F64.isnan x)) l = true ->
  nth i (pct_change fm k l) nan
  = F64.sub (F64.div (nth i l nan) (nth (Z.to_nat (Z.of_nat i - k)) l nan)) F64.one.
Proof.
  intros Hi Hk Hp. rewrite pct_change_fill_irrelevant by assumption.
  unfold pct_change.
  rewrite (zip_with_nth _ _ _ _ nan nan) by (rewrite ?shift_length; lia).
  now rewrite nth_shift_inside by lia.
Qed.

Lemma column_present (c : price_row -> float) s P :
  (forall r, In r P -> p_symbol r = s -> F64.isnan (c r) = false) ->
  forallb (fun x => negb (F64.isnan x)) (map c (restrict_prices (of_symbol s) P)) = true.
Proof.
  intros H. apply forallb_forall. intros x Hx.
  apply in_map_iff in Hx as (r & <- & Hr).
  rewrite H; auto.
  - now apply restrict_prices_In in Hr.
  - now apply single_symbol in Hr.
Qed.

(** The outcomes of the [i]-th row of a symbol, when the row has five later
    rows and the closes of the symbol are present: [open_1] is the next open
    over the close of the row, minus one; [close_1] and [close_5] are the
    close of the row over the close one and five rows later, minus one (the
    current close over the later one, not the later over the current). *)
Theorem outcome_values (fm : fill_method) (P : list price_row) (s : symbol) (i : nat) :
  i + 5 < length (restrict_prices (of_symbol s) P) ->
  (forall r, In r P -> p_symbol r = s -> F64.isnan (close r) = false) ->
  snd (row i (rows_of_symbol s (outcomes fm P)))
  = [CFloat (F64.sub
               (F64.div (nth (i + 1) (map open (restrict_prices (of_symbol s) P)) nan)
                        (nth i (map close (restrict_prices (of_symbol s) P)) nan))
               F64.one);
     CFloat (F64.sub
               (F64.div (nth i (map close (restrict_prices (of_symbol s) P)) nan)
                        (nth (i + 1) (map close (restrict_prices (of_symbol s) P)) nan))
               F64.one);
     CFloat (F64.sub
               (F64.div (nth i (map close (restrict_prices (of_symbol s) P)) nan)
                        (nth (i + 5) (map close (restrict_prices (of_symbol s) P)) nan))
               F64.one)].
Proof.
  intros Hi Hc. unfold rows_of_symbol. rewrite outcomes_of_symbol.
  pose proof (column_present close s P Hc) as HC.
  set (G := restrict_prices (of_symbol s) P) in *.
  assert (HlO : length (map open G) = length G) by apply length_map.
  assert (HlC : length (map close G) = length G) by apply length_map.
  rewrite (outcomes_row fm s G (single_symbol s P)) by lia.
  rewrite nth_shift_inside, nth_shift_0 by lia.
  rewrite !pct_change_nth_value by (auto; lia).
  repeat f_equal; lia.
Qed.

Lemma outcome_values_witness :
  snd (row 2 (rows_of_symbol "A"%string (outcomes Pad example_prices)))
  = [CFloat (F64.sub (F64.div (F64.of_Z 13) (F64.of_Z 13)) F64.one);
     CFloat (F64.sub (F64.div (F64.of_Z 13) (F64.of_Z 14)) F64.one);
     CFloat (F64.sub (F64.div (F64.of_Z 13) (F64.of_Z 18)) F64.one)].
Proof.
  rewrite (outcome_values Pad example_prices "A"%string 2).
  - reflexivity.
  - vm_compute. lia.
  - intros r Hr _. now apply example_prices_closes.
Defined.

Lemma day_column_nth_value (g : date -> Z) idx i k0 :
  i < length idx ->
  snd (nth i (map (fun k : index_key => (k, CInt (g (fst k)))) idx) (k0, CFloat nan))
  = CInt (g (nth i (map fst idx) (fst k0))).
Proof.
  intros Hi.
  rewrite (nth_indep _ _ (k0, CInt (g (fst k0)))) by now rewrite length_map.
  change (k0, CInt (g (fst k0)))
    with ((fun k : index_key => (k, CInt (g (fst k)))) k0).
  rewrite map_nth. simpl. f_equal. f_equal.
  change (fst k0) with ((fun k : index_key => fst k) k0). now rewrite map_nth.
Qed.

(** The features of the [i]-th row of a symbol, when the row has five
    earlier rows and the closes of the symbol are present:
    [volume_change_ratio] is the change of the volume since the previous row
    over the previous volume, [momentum_5_day] the close over the close five
    rows earlier, minus one, [intraday_chg] the close minus the open over the
    open, and the two last columns are the weekday (Monday is 0) and the day
    of the month of the row's date. *)
Theorem feature_values (fm : fill_method) (P : list price_row) (s : symbol) (i : nat) :
  5 <= i < length (restrict_prices (of_symbol s) P) ->
  (forall r, In r P -> p_symbol r = s -> F64.isnan (close r) = false) ->
  snd (row i (rows_of_symbol s (features_raw fm P)))
  = [CFloat (F64.div
               (F64.sub (nth i (map volume (restrict_prices (of_symbol s) P)) nan)
                        (nth (i - 1) (map volume (restrict_prices (of_symbol s) P)) nan))
               (nth (i - 1) (map volume (restrict_prices (of_symbol s) P)) nan));
     CFloat (F64.sub
               (F64.div (nth i (map close (restrict_prices (of_symbol s) P)) nan)
                        (nth (i - 5) (map close (restrict_prices (of_symbol s) P)) nan))
               F64.one);
     CFloat (F64.div
               (F64.sub (nth i (map close (restrict_prices (of_symbol s) P)) nan)
                        (nth i (map open (restrict_prices (of_symbol s) P)) nan))
               (nth i (map open (restrict_prices (of_symbol s) P)) nan));
     CInt (weekday (nth i (map p_date (restrict_prices (of_symbol s) P)) 0%Z));
     CInt (day (nth i (map p_date (restrict_prices (of_symbol s) P)) 0%Z))].
Proof.
  intros Hi Hc. unfold rows_of_symbol. rewrite features_raw_of_symbol.
  pose proof (column_present close s P Hc) as HC.
  pose proof (single_symbol s P) as single.
  set (G := restrict_prices (of_symbol s) P) in *.
  unfold row. rewrite features_raw_rows.
  assert (Hlen : forall A (T : list (index_key * A)),
             map fst T = map p_key G -> i < length T).
  { intros A T HT. apply (f_equal (@length _)) in HT.
    rewrite !length_map in HT. lia. }
  assert (HlV : length (map volume G) = length G) by apply length_map.
  assert (HlC : length (map close G) = length G) by apply length_map.
  assert (HlO : length (map open G) = length G) by apply length_map.
  unfold day_of_month, day_of_week.
  do 5 (rewrite (add_column_nth _ _ _ _ no_row (fst no_row, CFloat nan))
         by (apply Hlen; auto 10 with frame); cbn [snd]).
  unfold no_row at 1. rewrite new_frame_nth. cbn [app].
  rewrite !day_column_nth_value by (rewrite length_map; lia).
  rewrite !float_column_nth by (apply Hlen; auto with frame).
  unfold momentum_5_day.
  rewrite (volume_change_ratio_values s G single), (intraday_chg_values s G single),
    (close_values fm s G single).
  rewrite !(zip_with_nth _ _ _ _ nan nan)
    by (unfold diff; rewrite ?zip_with_length, ?shift_length; lia).
  unfold diff.
  rewrite !(zip_with_nth _ _ _ _ nan nan)
    by (rewrite ?zip_with_length, ?shift_length; lia).
  rewrite nth_shift_inside by lia.
  rewrite pct_change_nth_value by (auto; lia).
  assert (Hd : map fst (map p_key G) = map p_date G)
    by (rewrite map_map; reflexivity).
  rewrite Hd. cbn [fst no_row].
  repeat f_equal; try lia; apply shift_0.
Qed.

Lemma feature_values_witness :
  snd (row 5 (rows_of_symbol "A"%string (features_raw Pad example_prices)))
  = [CFloat (F64.div (F64.sub (F64.of_Z 125) (F64.of_Z 116)) (F64.of_Z 116));
     CFloat (F64.sub (F64.div (F64.of_Z 16) (F64.of_Z 11)) F64.one);
     CFloat (F64.div (F64.sub (F64.of_Z 16) (F64.of_Z 15)) (F64.of_Z 15));
     CInt 5; CInt 23].
Proof.
  rewrite (feature_values Pad example_prices "A"%string 5).
  - reflexivity.
  - vm_compute. lia.
  - intros r Hr _. now apply example_prices_closes.
Defined.

(** ** The training pair *)

(** What the alignment cell hands to the model.  For a features frame with
    distinct column labels and one cell per column in every row, when the
    cell succeeds: [X] has the columns of the features; [y] has exactly the
    index of [X], label by label in the same order; every row of [X] is a
    row of the features and has no missing cell; and no value of [y] is
    missing. *)
Theorem training_pair_aligned (F O : DataFrame) (name : string)
        (X : DataFrame) (y : Column) :
  NoDup (columns F) ->
  (forall r, In r (rows F) -> length (snd r) = length (columns F)) ->
  training_pair F O name = Ok (X, y) ->
  columns X = columns F
  /\ map fst y = index X
  /\ (forall r, In r (rows X) -> In r (rows F) /\ complete r = true)
  /\ (forall e, In e y -> isna (snd e) = false).
Proof.
  intros Hnd Hwf H.
  apply training_pair_explicit in H as (y0 & _ & _ & -> & ->); [|assumption].
  cbn [columns rows]. unfold index. cbn [rows].
  pose proof (kept_rows (rows F) y0) as HL.
  split; [reflexivity|]. split; [now rewrite !map_map|]. split.
  - intros r Hr. apply in_map_iff in Hr as (r1 & <- & Hr1).
    apply HL in Hr1 as (r0 & c & Hr0 & -> & Hc & _). cbn [fst snd].
    rewrite <- (Hwf r0 Hr0), map_nth_seq. destruct r0; auto.
  - intros e He. apply in_map_iff in He as (r1 & <- & Hr1).
    apply HL in Hr1 as (r0 & c & Hr0 & -> & _ & Hc). cbn [fst snd].
    rewrite <- (Hwf r0 Hr0), app_nth2, Nat.sub_diag by lia. exact Hc.
Qed.

Lemma training_pair_aligned_witness :
  exists X y,
    training_pair (features Pad example_prices) (outcomes Pad example_prices)
                  "close_1"%string = Ok (X, y)
    /\ columns X = columns (features Pad example_prices)
    /\ map fst y = index X
    /\ (forall r, In r (rows X) ->
                  In r (rows (features Pad example_prices)) /\ complete r = true)
    /\ (forall e, In e y -> isna (snd e) = false).
Proof.
  destruct (training_pair (features Pad example_prices) (outcomes Pad example_prices)
                          "close_1"%string) as [[X y]|] eqn:H; [|discriminate H].
  exists X, y. split; [reflexivity|].
  apply (training_pair_aligned (features Pad example_prices)
           (outcomes Pad example_prices) "close_1"%string X y).
  - rewrite features_columns. repeat constructor; simpl; intuition discriminate.
  - intros r Hr. now apply features_row_length in Hr.
  - exact H.
Defined.

Lemma matches_none k (y : Column) : ~ In k (map fst y) -> matches k y = [].
Proof.
  unfold matches. induction y as [|a y IH]; intros Hn; [reflexivity|].
  cbn [filter]. destruct (key_eqb (fst a) k) eqn:Hk.
  - apply (at_key_eq k (fst a)) in Hk. elim Hn. now left.
  - apply IH. intros H. apply Hn. now right.
Qed.

Lemma matches_at_most_one k (y : Column) :
  NoDup (map fst y) -> matches k y = [] \/ exists e, matches k y = [e].
Proof.
  induction y as [|a y IH]; intros Hnd; [now left|].
  inversion Hnd as [|? ? Ha Hnd']; subst. unfold matches. cbn [filter].
  destruct (key_eqb (fst a) k) eqn:Hk.
  - right. exists a. f_equal. apply (at_key_eq k (fst a)) in Hk.
    apply matches_none. now rewrite <- Hk.
  - now apply IH.
Qed.

Lemma complete_snoc k cs c :
  complete (k, cs ++ [c]) = complete (k, cs) && negb (isna c).
Proof.
  unfold complete. cbn [snd]. rewrite forallb_app. cbn [forallb].
  now rewrite andb_true_r.
Qed.

Lemma aligned_rows (X : list (index_key * list cell)) (y : Column) :
  NoDup (map fst y) ->
  (forall r, In r X -> complete r = true) ->
  filter complete (left_join_rows X y)
  = map (fun r => (fst r, snd r ++ [value_at (fst r) y]))
        (filter (fun r => negb (isna (value_at (fst r) y))) X).
Proof.
  intros Hnd Hc. unfold left_join_rows.
  induction X as [|r X IH]; [reflexivity|].
  cbn [flat_map]. rewrite filter_app, IH by (intros; apply Hc; now right).
  cbn [filter].
  assert (Hr : complete (fst r, snd r) = true)
    by (rewrite <- surjective_pairing; apply Hc; now left).
  destruct (matches_at_most_one (fst r) y Hnd) as [H|[e H]].
  - assert (Hv : value_at (fst r) y = CFloat nan) by (unfold value_at; now rewrite H).
    rewrite H, Hv. cbn [map filter isna negb].
    now rewrite complete_snoc, Hr.
  - assert (Hv : value_at (fst r) y = snd e) by (unfold value_at; now rewrite H).
    rewrite H, Hv. cbn [map filter].
    rewrite complete_snoc, Hr. cbn [andb].
    destruct (negb (isna (snd e))); cbn [map app]; now rewrite ?Hv.
Qed.

Lemma getitem_keys df name col : getitem df name = Ok col -> map fst col = index df.
Proof.
  unfold getitem, index. destruct (position name (columns df)); [|discriminate].
  intros H. injection H as <-. now rewrite map_map.
Qed.

Lemma getitem_getattr df name col : getitem df name = Ok col -> getattr df name = Ok col.
Proof.
  unfold getitem, getattr. now destruct (position name (columns df)).
Qed.

Lemma training_pair_unique_index (F O : DataFrame) (name : string) (col : Column) :
  NoDup (columns F) ->
  (forall r, In r (rows F) -> length (snd r) = length (columns F)) ->
  (forall r, In r (rows F) -> complete r = true) ->
  existsb (String.eqb name) (columns F) = false ->
  getitem O name = Ok col ->
  NoDup (index O) ->
  training_pair F O name
  = Ok (mkFrame (columns F)
                (filter (fun r => negb (isna (value_at (fst r) col))) (rows F)),
        map (fun r => (fst r, value_at (fst r) col))
            (filter (fun r => negb (isna (value_at (fst r) col))) (rows F))).
Proof.
  intros Hnd Hwf Hc Hnew Hcol HO. unfold training_pair.
  rewrite (getitem_getattr O name col Hcol).
  cbn [bind]. unfold join. rewrite Hnew. apply existsb_eqb_In in Hnew.
  cbn [bind]. unfold getitem, dropna. cbn [columns rows].
  rewrite (position_skip name (columns F) [] Hnew). cbn [bind].
  rewrite getitem_columns_joined by assumption. cbn [bind rows].
  rewrite aligned_rows by (rewrite ?(getitem_keys O name col Hcol); assumption).
  rewrite !map_map. cbn [fst snd].
  set (K := filter _ (rows F)).
  assert (HK : forall r, In r K -> In r (rows F))
    by (intros r Hr; now apply filter_In in Hr).
  f_equal. f_equal.
  - f_equal. rewrite <- (map_id K) at 2. apply map_ext_in. intros r Hr.
    rewrite <- (Hwf r (HK r Hr)), map_nth_seq. now destruct r.
  - apply map_ext_in. intros r Hr.
    now rewrite <- (Hwf r (HK r Hr)), app_nth2, Nat.sub_diag by lia.
Qed.

(** On a price table with one row per (date, symbol), the alignment cell
    keeps exactly the rows of [features] whose outcome is not missing: [X]
    is [features] without the rows whose label has a missing value in the
    outcome column, in the order of [features], no row repeated and no cell
    changed; and [y] gives, for each row of [X] in turn, the value of the
    outcome column under the label of the row. *)
Theorem training_pair_keeps_rows_with_outcome
        (fm : fill_method) (P : list price_row) (name : string) :
  NoDup (map p_key P) ->
  In name ["open_1"; "close_1"; "close_5"]%string ->
  exists col X y,
    getitem (outcomes fm P) name = Ok col
    /\ training_pair (features fm P) (outcomes fm P) name = Ok (X, y)
    /\ columns X = columns (features fm P)
    /\ rows X = filter (fun r => negb (isna (value_at (fst r) col)))
                       (rows (features fm P))
    /\ y = map (fun r => (fst r, value_at (fst r) col)) (rows X).
Proof.
  intros Hnd Hn.
  assert (Hcol : exists col, getitem (outcomes fm P) name = Ok col
                             /\ existsb (String.eqb name) (columns (features fm P)) = false).
  { destruct Hn as [<-|[<-|[<-|[]]]]; eexists; split; reflexivity. }
  destruct Hcol as (col & Hcol & Hnew).
  exists col. eexists. eexists. split; [exact Hcol|].
  split; [|split; [|split]].
  - apply (training_pair_unique_index _ _ _ col); auto.
    + rewrite features_columns. repeat constructor; simpl; intuition discriminate.
    + intros r Hr. now apply features_row_length in Hr.
    + intros r Hr. unfold features, dropna in Hr. cbn [rows] in Hr.
      now apply filter_In in Hr.
    + now rewrite outcomes_index.
  - reflexivity.
  - reflexivity.
  - reflexivity.
Qed.

Lemma example_prices_keys_distinct : NoDup (map p_key example_prices).
Proof.
  vm_compute. repeat (constructor; [simpl; intuition discriminate|]). constructor.
Qed.

Lemma training_pair_keeps_rows_with_outcome_witness :
  exists col X y,
    getitem (outcomes Pad example_prices) "close_1"%string = Ok col
    /\ training_pair (features Pad example_prices) (outcomes Pad example_prices)
                     "close_1"%string = Ok (X, y)
    /\ columns X = columns (features Pad example_prices)
    /\ rows X = filter (fun r => negb (isna (value_at (fst r) col)))
                       (rows (features Pad example_prices))
    /\ y = map (fun r => (fst r, value_at (fst r) col)) (rows X).
Proof.
  apply (training_pair_keeps_rows_with_outcome Pad example_prices "close_1"%string).
  - apply example_prices_keys_distinct.
  - simpl. auto.
Defined.

(** ** The cells in any state of the kernel *)

Lemma load_frame_at name l df k :
  lookup name (globals k) = Some l -> nth_error (heap k) l = Some (FrameObj df) ->
  load_frame name k = Ok (df, k).
Proof. intros Hb Ho. unfold load_frame, seq_cmd, load. now rewrite Hb, Ho. Qed.

Lemma load_series_at name l n c k :
  lookup name (globals k) = Some l -> nth_error (heap k) l = Some (SeriesObj n c) ->
  load_series name k = Ok ((n, c), k).
Proof. intros Hb Ho. unfold load_series, seq_cmd, load. now rewrite Hb, Ho. Qed.

Lemma nth_error_old {A} (h news : list A) i o :
  nth_error h i = Some o -> nth_error (h ++ news) i = Some o.
Proof.
  intros H. rewrite nth_error_app1; [assumption|].
  apply nth_error_Some. congruence.
Qed.

Lemma nth_error_new {A} (h news : list A) j :
  nth_error (h ++ news) (length h + j) = nth_error news j.
Proof.
  rewrite nth_error_app2 by lia. f_equal. lia.
Qed.

Lemma align_cell_steps h g lf lo F O name :
  lookup "features" g = Some lf ->
  nth_error h lf = Some (FrameObj F) ->
  lookup "outcomes" g = Some lo ->
  nth_error h lo = Some (FrameObj O) ->
  align_cell name (mkKernel h g) =
  match getattr O name with
  | Raise e => Raise e
  | Ok y0 =>
      match join Left F name y0 with
      | Raise e => Raise e
      | Ok Xy =>
          match getitem (dropna Xy) name with
          | Raise e => Raise e
          | Ok y1 =>
              match getitem_columns (dropna Xy) (columns F) with
              | Raise e => Raise e
              | Ok X1 =>
                  Ok (tt, mkKernel
                            ((((h ++ [SeriesObj name y0]) ++ [FrameObj (dropna Xy)])
                                ++ [SeriesObj name y1]) ++ [FrameObj X1])
                            (("X"%string,
                              length (((h ++ [SeriesObj name y0])
                                         ++ [FrameObj (dropna Xy)])
                                        ++ [SeriesObj name y1]))
                             :: ("y"%string,
                                 length ((h ++ [SeriesObj name y0])
                                           ++ [FrameObj (dropna Xy)]))
                             :: ("Xy"%string, length (h ++ [SeriesObj name y0]))
                             :: ("X"%string, lf)
                             :: ("y"%string, length h) :: g))
              end
          end
      end
  end.
Proof.
  intros Hf HF Ho HO. unfold align_cell.
  unfold seq_cmd at 1 2 3.
  rewrite (load_frame_at "outcomes" lo O) by assumption.
  destruct (getattr O name) as [y0|e]; [|reflexivity].
  cbn [bind lift bind_new globals heap].
  unfold seq_cmd at 1. unfold bind_alias.
  cbn [globals heap lookup String.eqb Ascii.eqb Bool.eqb]. rewrite Hf.
  unfold seq_cmd at 1 2 3 4.
  rewrite (load_frame_at "X" lf F)
    by (cbn [globals heap lookup String.eqb Ascii.eqb Bool.eqb];
        auto using nth_error_old).
  rewrite (load_series_at "y" (length h + 0) name y0)
    by (cbn [globals heap lookup String.eqb Ascii.eqb Bool.eqb];
        rewrite ?nth_error_new, ?Nat.add_0_r; reflexivity).
  cbn [fst snd].
  destruct (join Left F name y0) as [Xy|e]; [|reflexivity].
  cbn [bind lift bind_new globals heap].
  unfold seq_cmd at 1 2 3 4.
  rewrite (load_frame_at "Xy" (length (h ++ [SeriesObj name y0]) + 0) (dropna Xy))
    by (cbn [globals heap lookup String.eqb Ascii.eqb Bool.eqb];
        rewrite ?nth_error_new, ?Nat.add_0_r; reflexivity).
  rewrite (load_series_at "y" (length h + 0) name y0)
    by (cbn [globals heap lookup String.eqb Ascii.eqb Bool.eqb];
        rewrite <- ?app_assoc, ?nth_error_new, ?Nat.add_0_r; reflexivity).
  cbn [fst snd].
  destruct (getitem (dropna Xy) name) as [y1|e]; [|reflexivity].
  cbn [bind lift bind_new globals heap].
  unfold seq_cmd.
  rewrite (load_frame_at "Xy" (length (h ++ [SeriesObj name y0]) + 0) (dropna Xy))
    by (cbn [globals heap lookup String.eqb Ascii.eqb Bool.eqb];
        rewrite <- ?(app_assoc (h ++ [SeriesObj name y0])), ?nth_error_new,
          ?Nat.add_0_r; reflexivity).
  rewrite (load_frame_at "X" lf F)
    by (cbn [globals heap lookup String.eqb Ascii.eqb Bool.eqb];
        auto using nth_error_old).
  destruct (getitem_columns (dropna Xy) (columns F)) as [X1|e]; reflexivity.
Qed.

(** The alignment cell in any state of the kernel in which [features] and
    [outcomes] are bound to frames.  It computes the training pair of these
    two frames, whatever [X], [y] and [Xy] were bound to before: when the
    pair exists, the cell binds [X] and [y] to it, changes no object that
    existed before (the features, the outcomes and the prices among them)
    and rebinds no name but [X], [y] and [Xy]; when the pair raises, the
    cell raises the same error.  So the cell can be run again for another
    outcome column, as the notebook does. *)
Theorem align_cell_runs_training_pair (k : kernel) (lf lo : nat)
        (F O : DataFrame) (name : string) :
  lookup "features" (globals k) = Some lf ->
  nth_error (heap k) lf = Some (FrameObj F) ->
  lookup "outcomes" (globals k) = Some lo ->
  nth_error (heap k) lo = Some (FrameObj O) ->
  match training_pair F O name with
  | Ok (X, y) =>
      exists k' lx ly,
        align_cell name k = Ok (tt, k')
        /\ lookup "X" (globals k') = Some lx
        /\ nth_error (heap k') lx = Some (FrameObj X)
        /\ lookup "y" (globals k') = Some ly
        /\ nth_error (heap k') ly = Some (SeriesObj name y)
        /\ (forall i o, nth_error (heap k) i = Some o -> nth_error (heap k') i = Some o)
        /\ (forall n, ~ In n ["X"; "y"; "Xy"]%string ->
                      lookup n (globals k') = lookup n (globals k))
  | Raise e => align_cell name k = Raise e
  end.
Proof.
  intros Hf HF Ho HO. destruct k as [h g]. cbn [globals heap] in *.
  rewrite (align_cell_steps h g lf lo F O name) by assumption.
  unfold training_pair.
  destruct (getattr O name) as [y0|e]; [|reflexivity]. cbn [bind].
  destruct (join Left F name y0) as [Xy|e]; [|reflexivity]. cbn [bind].
  destruct (getitem (dropna Xy) name) as [y1|e]; [|reflexivity]. cbn [bind].
  destruct (getitem_columns (dropna Xy) (columns F)) as [X1|e]; [|reflexivity].
  cbn [bind].
  eexists. eexists. eexists. split; [reflexivity|].
  cbn [globals heap].
  split; [reflexivity|]. split.
  { rewrite <- (Nat.add_0_r (length _)), nth_error_new. reflexivity. }
  split; [reflexivity|]. split.
  { rewrite <- (Nat.add_0_r (length _)).
    rewrite <- (app_assoc _ _ [FrameObj X1]), nth_error_new. reflexivity. }
  split.
  - intros i o Hi. rewrite <- !app_assoc. now apply nth_error_old.
  - intros n Hn. cbn [In] in Hn. cbn [lookup].
    destruct (String.eqb_spec "X" n) as [<-|_]; [tauto|].
    destruct (String.eqb_spec "y" n) as [<-|_]; [tauto|].
    destruct (String.eqb_spec "Xy" n) as [<-|_]; [tauto|].
    reflexivity.
Qed.

Lemma align_cell_runs_training_pair_witness :
  match training_pair (features Pad example_prices) (outcomes Pad example_prices)
                      "open_1"%string with
  | Ok (X, y) =>
      exists k' lx ly,
        align_cell "open_1"%string example_kernel_aligned = Ok (tt, k')
        /\ lookup "X" (globals k') = Some lx
        /\ nth_error (heap k') lx = Some (FrameObj X)
        /\ lookup "y" (globals k') = Some ly
        /\ nth_error (heap k') ly = Some (SeriesObj "open_1"%string y)
        /\ (forall i o, nth_error (heap example_kernel_aligned) i = Some o ->
                        nth_error (heap k') i = Some o)
        /\ (forall n, ~ In n ["X"; "y"; "Xy"]%string ->
                      lookup n (globals k') = lookup n (globals example_kernel_aligned))
  | Raise e => align_cell "open_1"%string example_kernel_aligned = Raise e
  end.
Proof.
  apply (align_cell_runs_training_pair example_kernel_aligned 1 2
           (features Pad example_prices) (outcomes Pad example_prices) "open_1"%string);
    reflexivity.
Defined.
